(** * createAnimatedComponent: a shallow embedding and its properties

    The development follows [src/createAnimatedComponent.js].  JavaScript
    values are a tree datatype, the wrapper instance and the module-level
    state ([NODE_MAPPING], the event emitter, the mutable parts of the
    objects handed in through props) are records threaded through a small
    state-and-exception monad, and every call into a collaborator that is
    not part of the file (the animation graph, the event subsystem, the
    host renderer) is recorded in a chronological trace. *)

From stdpp Require Import base option list strings pretty gmap fin_maps.

Open Scope string_scope.
Open Scope list_scope.

Set Warnings "-register-all".

(** ** JavaScript values *)

Module JS.

(** The three classes the file tests with [instanceof].  [AnimatedValue]
    and [AnimatedEvent] are subclasses of [AnimatedNode]; every other
    subclass is [OtherAnimatedNode]. *)
Inductive NodeClass : Type :=
  | AnimatedValue
  | AnimatedEvent
  | OtherAnimatedNode.

#[global] Instance NodeClass_eq_dec : EqDecision NodeClass.
Proof. solve_decision. Defined.

(** A view tag as returned by [findNodeHandle]: a number or [null]. *)
Definition Tag : Type := option N.

(** Identity of an object whose mutable part lives in the store. *)
Definition loc : Type := N.

(** Values.  [VArr] and [VObj] are plain data (the file never writes to
    them); [VObj] keeps its own enumerable keys in insertion order.
    [VNode c id start] is an instance of [AnimatedNode] of class [c] with
    [__nodeID = id] and [_startingValue = start].  [VStyle l initial] is an
    object produced by the animated-style / animated-props hooks: it has a
    [viewDescriptors] set and a [viewRef] array, both mutable and kept in
    the store under [l], and an [initial] object.  [VHandler l names
    listeners tag] is a [WorkletEventHandler] instance with its
    [eventNames], [listeners] ([None] when absent) and [viewTag] ([None]
    when [undefined]); its [reattachNeeded] flag is kept in the store. *)
Inductive value : Type :=
  | VUndefined
  | VNull
  | VBool (b : bool)
  | VNum (n : Z)
  | VStr (s : string)
  | VFun (name : string)
  | VArr (items : list value)
  | VObj (fields : list (string * value))
  | VNode (c : NodeClass) (__nodeID : N) (_startingValue : value)
  | VStyle (l : loc) (initial : list (string * value))
  | VHandler (l : loc) (eventNames : list string)
      (listeners : option (list (string * value))) (viewTag : option Tag).

(** A props object: its enumerable keys with their values, in the order a
    [for ... in] loop visits them (insertion order; the keys are property
    names, not array indices). *)
Definition Props : Type := list (string * value).

(** JavaScript truthiness. *)
Definition truthy (v : value) : bool :=
  match v with
  | VUndefined | VNull => false
  | VBool b => b
  | VNum n => negb (n =? 0)%Z
  | VStr s => negb (bool_decide (s = ""))
  | _ => true
  end.

(** [obj[key]] on a list of fields: the first binding, if any. *)
Fixpoint assoc_get (key : string) (fields : list (string * value)) : option value :=
  match fields with
  | [] => None
  | (k, v) :: rest => if bool_decide (k = key) then Some v else assoc_get key rest
  end.

Definition get_field (key : string) (fields : list (string * value)) : value :=
  default VUndefined (assoc_get key fields).

(** [obj[key] = v]: an existing key keeps its position, a new key goes last. *)
Fixpoint obj_set (key : string) (v : value) (fields : list (string * value))
  : list (string * value) :=
  match fields with
  | [] => [(key, v)]
  | (k, w) :: rest =>
      if bool_decide (k = key) then (k, v) :: rest else (k, w) :: obj_set key v rest
  end.

(** [value?.name] for the property names the file reads.  A store object
    answers for the fields named in its constructor; plain data answers
    from its own fields; everything else, [null] and [undefined] included
    (optional chaining), gives [undefined]. *)
Definition get_prop (name : string) (v : value) : value :=
  match v with
  | VObj fields => get_field name fields
  | VStyle _ initial => if bool_decide (name = "initial") then VObj initial else VUndefined
  | _ => VUndefined
  end.

Definition is_class (c : NodeClass) (v : value) : bool :=
  match v with
  | VNode c' _ _ => bool_decide (c' = c)
  | _ => false
  end.

(** [value instanceof AnimatedNode]. *)
Definition is_AnimatedNode (v : value) : bool :=
  match v with
  | VNode _ _ _ => true
  | _ => false
  end.

(** [prop?.current && prop.current instanceof WorkletEventHandler]. *)
Definition is_handler_ref (v : value) : bool :=
  match get_prop "current" v with
  | VHandler _ _ _ _ => true
  | _ => false
  end.

End JS.
Export JS.

(** ** Pure helpers of the file *)

(** [hasAnimatedNodes], lines 28-39.  Store objects ([VStyle],
    [VHandler]) are opaque to the traversal: their fields (descriptor sets,
    view references, names, callbacks) are not enumerated in the model. *)
Fixpoint hasAnimatedNodes (v : value) : bool :=
  match v with
  | VNode _ _ _ => true
  | VArr items => existsb hasAnimatedNodes items
  | VObj fields =>
      existsb (fun kv => match kv with (_, x) => hasAnimatedNodes x end) fields
  | _ => false
  end.

(** The inner [_flattenArray] of [flattenArray], lines 47-55: what one
    item contributes to [resultArr], and what a whole array does. *)
Fixpoint _flattenArray_item (item : value) : list value :=
  match item with
  | VArr inner => flat_map _flattenArray_item inner
  | _ => [item]
  end.

Definition _flattenArray (arr : list value) : list value :=
  flat_map _flattenArray_item arr.

(** [flattenArray], lines 41-58. *)
Definition flattenArray (array : value) : value :=
  match array with
  | VArr items => VArr (_flattenArray items)
  | _ => array
  end.

(** ** The state the file works on *)

(** What the wrapped component's ref exposes to the file: its identity,
    whether it has a [setNativeProps] method, the node its
    [getScrollableNode] method returns when it has one, and whether the
    deprecated [getNode] helper has been installed on it. *)
Record Component : Type := mkComponent {
  cid : N;
  setNativeProps : bool;
  getScrollableNode : option N;
  getNode : bool
}.

(** Identity of a props graph node (the result of
    [createOrReusePropsNode]). *)
Definition PNode : Type := N.

(** The fields of one [AnimatedComponent] instance. *)
Record Instance : Type := mkInstance {
  iid : N;
  props : Props;
  _component : option Component;
  _propsAnimated : option PNode;
  _invokeAnimatedPropsCallbackOnMount : bool
}.

(** What [findNodeHandle] is applied to: the instance itself, the wrapped
    component, or the node returned by [getScrollableNode]. *)
Inductive Target : Type :=
  | TInstance (i : N)
  | TComponent (c : N)
  | TNode (n : N).

Record ViewConfig : Type := mkViewConfig {
  uiViewClassName : option string
}.

Record HostInstance : Type := mkHostInstance {
  _nativeTag : Tag;
  viewConfig : option ViewConfig
}.

(** The object [{ tag: viewTag, name: viewName }] added to a descriptor
    set; [name = None] stands for [null] and [undefined]. *)
Record Descriptor : Type := mkDescriptor {
  tag : Tag;
  name : option string
}.

(** Listeners of the event emitter: the module-level [listener] function
    of this file, or a function registered by somebody else. *)
Inductive Listener : Type :=
  | ModuleListener
  | OtherListener (n : N).

#[global] Instance Listener_eq_dec : EqDecision Listener.
Proof. solve_decision. Defined.

(** Calls into collaborators, in the order they are made.
    [EvInstallPropsNode] is not a call: it marks the assignment to
    [this._propsAnimated], so that the trace orders it against the calls
    around it. *)
Inductive Event : Type :=
  | EvCreateOrReusePropsNode (this : N) (nextProps : Props) (old : option PNode)
  | EvInstallPropsNode (this : N) (node : option PNode)
  | EvDetachPropsNode (node : PNode)
  | EvSetNativeView (node : PNode) (component : option N)
  | EvAttachEvent (nodeID : N) (view : Target) (key : string)
  | EvDetachEvent (nodeID : N) (view : Target) (key : string)
  | EvRegisterForEvents (handler : loc) (viewTag : option Tag) (key : string)
  | EvUnregisterFromEvents (handler : loc)
  | EvAddListener (channel : string) (l : Listener)
  | EvRemoveAllListeners (channel : string)
  | EvForceUpdate (this : N)
  | EvSetNativeProps (component : N) (patch : value)
  | EvAdaptViewConfig (config : option ViewConfig).

(** Module-level and shared mutable state: [NODE_MAPPING], the listeners
    of [ReanimatedEventEmitter] per event name, the [viewRef] array and the
    [viewDescriptors] set of every animated style object, the set of
    handlers whose [reattachNeeded] flag is on, and the trace.  A
    [viewDescriptors] set only ever receives fresh objects, so it is a list
    in insertion order. *)
Record Env : Type := mkEnv {
  NODE_MAPPING : gmap Tag N;
  emitter : gmap string (list Listener);
  viewRef : gmap loc (list N);
  viewDescriptors : gmap loc (list Descriptor);
  reattachNeeded : gset loc;
  trace : list Event
}.

Record State : Type := mkState {
  self : Instance;
  env : Env
}.

(** Collaborators the file imports.  [StyleSheet_flatten] is applied to an
    array only and answers a fresh plain object. *)
Class Host : Type := mkHost {
  Platform_OS : string;
  findNodeHandle : Target → Tag;
  findHostInstance_DEPRECATED : N → option HostInstance;
  createOrReusePropsNode : Props → option PNode → option PNode;
  __getValue : PNode → value;
  StyleSheet_flatten : list value → list (string * value)
}.

(** ** The monad *)

Inductive Error : Type :=
  | TypeError (what : string)
  | InvariantViolation (message : string)
  | JsError (message : string).

Inductive Outcome (A : Type) : Type :=
  | Ok (a : A)
  | Throw (e : Error).
Arguments Ok {A} a.
Arguments Throw {A} e.

(** The error [_attachAnimatedStyles] raises for a missing host instance. *)
Definition host_instance_error : Error :=
  JsError "Cannot find host instance for this component. Maybe it renders nothing?".

Definition M (A : Type) : Type := State → Outcome A * State.

#[global] Instance M_ret : MRet M := λ A a s, (Ok a, s).

#[global] Instance M_bind : MBind M := λ A B f m s,
  match m s with
  | (Ok a, s') => f a s'
  | (Throw e, s') => (Throw e, s')
  end.

Definition throw {A : Type} (e : Error) : M A := λ s, (Throw e, s).

Definition this_ : M Instance := λ s, (Ok (self s), s).

Definition env_ : M Env := λ s, (Ok (env s), s).

Definition set_self (f : Instance → Instance) : M unit :=
  λ s, (Ok (), mkState (f (self s)) (env s)).

Definition set_env (f : Env → Env) : M unit :=
  λ s, (Ok (), mkState (self s) (f (env s))).

Definition emit (e : Event) : M unit :=
  set_env (λ v, mkEnv (NODE_MAPPING v) (emitter v) (viewRef v) (viewDescriptors v)
                      (reattachNeeded v) (trace v ++ [e])).

(** A [for (const key in obj)] loop with an effectful body, and the same
    with a loop-carried variable. *)
Fixpoint for_in (keys : list string) (body : string → M unit) : M unit :=
  match keys with
  | [] => mret ()
  | key :: rest => body key ;; for_in rest body
  end.

Fixpoint for_in_acc {A : Type} (keys : list string) (acc : A)
    (body : A → string → M A) : M A :=
  match keys with
  | [] => mret acc
  | key :: rest => acc' ← body acc key; for_in_acc rest acc' body
  end.

Fixpoint for_each {A : Type} (items : list A) (body : A → M unit) : M unit :=
  match items with
  | [] => mret ()
  | item :: rest => body item ;; for_each rest body
  end.

Fixpoint map_M {A B : Type} (items : list A) (body : A → M B) : M (list B) :=
  match items with
  | [] => mret []
  | item :: rest => x ← body item; xs ← map_M rest body; mret (x :: xs)
  end.

Definition keys (obj : list (string * value)) : list string := obj.*1.

(** Field updates. *)
Definition with_component (c : option Component) (i : Instance) : Instance :=
  mkInstance (iid i) (props i) c (_propsAnimated i) (_invokeAnimatedPropsCallbackOnMount i).

Definition with_propsAnimated (n : option PNode) (i : Instance) : Instance :=
  mkInstance (iid i) (props i) (_component i) n (_invokeAnimatedPropsCallbackOnMount i).

Definition with_invokeOnMount (b : bool) (i : Instance) : Instance :=
  mkInstance (iid i) (props i) (_component i) (_propsAnimated i) b.

Definition with_NODE_MAPPING (m : gmap Tag N) (v : Env) : Env :=
  mkEnv m (emitter v) (viewRef v) (viewDescriptors v) (reattachNeeded v) (trace v).

Definition with_emitter (e : gmap string (list Listener)) (v : Env) : Env :=
  mkEnv (NODE_MAPPING v) e (viewRef v) (viewDescriptors v) (reattachNeeded v) (trace v).

Definition with_viewRef (r : gmap loc (list N)) (v : Env) : Env :=
  mkEnv (NODE_MAPPING v) (emitter v) r (viewDescriptors v) (reattachNeeded v) (trace v).

Definition with_viewDescriptors (d : gmap loc (list Descriptor)) (v : Env) : Env :=
  mkEnv (NODE_MAPPING v) (emitter v) (viewRef v) d (reattachNeeded v) (trace v).

Definition with_reattachNeeded (r : gset loc) (v : Env) : Env :=
  mkEnv (NODE_MAPPING v) (emitter v) (viewRef v) (viewDescriptors v) r (trace v).

(** ** The event emitter *)

(** Modelled from the spec: [ReanimatedEventEmitter] is imported from a
    module that is not part of the file.  It is the notification channel
    of section 4.1: [addListener] subscribes one more listener to an event
    name, [removeAllListeners] drops every listener of that event name. *)
Definition listeners_of (channel : string) (e : gmap string (list Listener))
  : list Listener :=
  default [] (e !! channel).

Definition addListener (channel : string) (l : Listener) : M unit :=
  emit (EvAddListener channel l) ;;
  set_env (λ v, with_emitter
    (<[channel := listeners_of channel (emitter v) ++ [l]]> (emitter v)) v).

Definition removeAllListeners (channel : string) : M unit :=
  emit (EvRemoveAllListeners channel) ;;
  set_env (λ v, with_emitter (delete channel (emitter v)) v).

(** The object methods the file calls on what it finds in props. *)

(** [style.viewRef.push(this)] on a store object. *)
Definition viewRef_push (l : loc) (i : N) : M unit :=
  set_env (λ v, with_viewRef (<[l := default [] (viewRef v !! l) ++ [i]]> (viewRef v)) v).

(** [style.viewDescriptors.add(d)] on a store object. *)
Definition viewDescriptors_add (l : loc) (d : Descriptor) : M unit :=
  set_env (λ v, with_viewDescriptors
    (<[l := default [] (viewDescriptors v !! l) ++ [d]]> (viewDescriptors v)) v).

(** What [x?.viewDescriptors] finds: the descriptor set of a store object,
    or some plain value. *)
Inductive Probe : Type :=
  | ProbeSet (l : loc)
  | ProbePlain (v : value).

Definition probe_viewDescriptors (v : value) : Probe :=
  match v with
  | VStyle l _ => ProbeSet l
  | VObj fields => ProbePlain (get_field "viewDescriptors" fields)
  | _ => ProbePlain VUndefined
  end.

Definition probe_truthy (p : Probe) : bool :=
  match p with
  | ProbeSet _ => true
  | ProbePlain v => truthy v
  end.

(** [__nodeID] of an [AnimatedNode]. *)
Definition nodeID_of (v : value) : N :=
  match v with
  | VNode _ id _ => id
  | _ => 0%N
  end.

(** [Array.isArray(x) ? x : [x]]. *)
Definition as_array (x : value) : list value :=
  match x with
  | VArr items => items
  | _ => [x]
  end.

(** ** Module-level functions *)

Section Code.
Context {host : Host}.

(** [dummyListener], lines 23-26, as a value. *)
Definition dummyListener : value := VFun "dummyListener".

(** The guard of [createAnimatedComponent], lines 60-66.  [invariant]
    throws when its condition is falsy.  A component argument is described
    by whether [typeof Component] is ['function'] and by the value of
    [Component.prototype]. *)
Record ComponentArg : Type := mkComponentArg {
  typeof_function : bool;
  prototype : value
}.

Definition createAnimatedComponent_guard (C : ComponentArg) : bool :=
  negb (typeof_function C)
  || (truthy (prototype C) && truthy (get_prop "isReactComponent" (prototype C))).

Definition createAnimatedComponent (C : ComponentArg) : Outcome unit :=
  if createAnimatedComponent_guard C then Ok ()
  else Throw (InvariantViolation
    "`createAnimatedComponent` does not support stateless functional components; use a class component instead.").

(** ** Methods of [AnimatedComponent] *)

(** [_getEventViewRef], lines 94-100. *)
Definition _getEventViewRef : M Target :=
  this ← this_;
  match _component this with
  | None => throw (TypeError "this._component.getScrollableNode")
  | Some c =>
      match getScrollableNode c with
      | Some n => mret (TNode n)
      | None => mret (TComponent (cid c))
      end
  end.

(** [_attachNativeEvents], lines 102-117. *)
Definition _attachNativeEvents : M unit :=
  node ← _getEventViewRef;
  let viewTag := findNodeHandle node in
  this ← this_;
  for_in (keys (props this)) (λ key,
    let prop := get_field key (props this) in
    if is_class AnimatedEvent prop then
      emit (EvAttachEvent (nodeID_of prop) node key)
    else
      match get_prop "current" prop with
      | VHandler l _ _ _ => emit (EvRegisterForEvents l (Some viewTag) key)
      | _ => mret ()
      end).

(** [_detachNativeEvents], lines 119-133. *)
Definition _detachNativeEvents : M unit :=
  node ← _getEventViewRef;
  this ← this_;
  for_in (keys (props this)) (λ key,
    let prop := get_field key (props this) in
    if is_class AnimatedEvent prop then
      emit (EvDetachEvent (nodeID_of prop) node key)
    else
      match get_prop "current" prop with
      | VHandler l _ _ _ => emit (EvUnregisterFromEvents l)
      | _ => mret ()
      end).

(** First loop of [_reattachNativeEvents], lines 141-153: the identities
    of the events in the current props, and the [viewTag] of the first
    handler that has one. *)
Definition nextEvts_of (current : Props) : gset N :=
  foldl (λ acc key,
    let prop := get_field key current in
    if is_class AnimatedEvent prop then acc ∪ {[nodeID_of prop]} else acc)
    ∅ (keys current).

Definition handler_viewTag_of (current : Props) : option Tag :=
  foldl (λ acc key,
    let prop := get_field key current in
    if is_class AnimatedEvent prop then acc
    else
      match get_prop "current" prop with
      | VHandler _ _ _ t => match acc with None => t | Some _ => acc end
      | _ => acc
      end)
    None (keys current).

(** [_reattachNativeEvents], lines 135-187. *)
Definition _reattachNativeEvents (prevProps : Props) : M unit :=
  node ← _getEventViewRef;
  this ← this_;
  let nextEvts := nextEvts_of (props this) in
  let viewTag := handler_viewTag_of (props this) in
  attached ← for_in_acc (keys prevProps) (∅ : gset N) (λ attached key,
    let prop := get_field key (props this) in
    if is_class AnimatedEvent prop then
      if negb (bool_decide (nodeID_of prop ∈ nextEvts)) then
        emit (EvDetachEvent (nodeID_of prop) node key) ;; mret attached
      else
        mret (attached ∪ {[nodeID_of prop]})
    else
      match get_prop "current" prop with
      | VHandler l _ _ _ =>
          v ← env_;
          if bool_decide (l ∈ reattachNeeded v) then
            emit (EvUnregisterFromEvents l) ;; mret attached
          else mret attached
      | _ => mret attached
      end);
  for_in (keys (props this)) (λ key,
    let prop := get_field key (props this) in
    if is_class AnimatedEvent prop && negb (bool_decide (nodeID_of prop ∈ attached)) then
      emit (EvAttachEvent (nodeID_of prop) node key)
    else
      match get_prop "current" prop with
      | VHandler l _ _ _ =>
          v ← env_;
          if bool_decide (l ∈ reattachNeeded v) then
            emit (EvRegisterForEvents l viewTag key) ;;
            set_env (λ v, with_reattachNeeded (reattachNeeded v ∖ {[l]}) v)
          else mret ()
      | _ => mret ()
      end).

(** [_animatedPropsCallback], lines 194-207. *)
Definition _animatedPropsCallback : M unit :=
  this ← this_;
  match _component this with
  | None => set_self (with_invokeOnMount true)
  | Some c =>
      if negb (setNativeProps c) then emit (EvForceUpdate (iid this))
      else
        match _propsAnimated this with
        | None => throw (TypeError "this._propsAnimated.__getValue")
        | Some n => emit (EvSetNativeProps (cid c) (__getValue n))
        end
  end.

(** [_attachProps], lines 209-229. *)
Definition _attachProps (nextProps : Props) : M unit :=
  this ← this_;
  let oldPropsAnimated := _propsAnimated this in
  emit (EvCreateOrReusePropsNode (iid this) nextProps oldPropsAnimated) ;;
  let node := createOrReusePropsNode nextProps oldPropsAnimated in
  set_self (with_propsAnimated node) ;;
  emit (EvInstallPropsNode (iid this) node) ;;
  if negb (bool_decide (oldPropsAnimated = node)) then
    match oldPropsAnimated with
    | Some old => emit (EvDetachPropsNode old)
    | None => mret ()
    end
  else mret ().

(** [_updateFromNative], lines 231-234. *)
Definition _updateFromNative (patch : value) : M unit :=
  this ← this_;
  match _component this with
  | None => throw (TypeError "this._component.setNativeProps")
  | Some c =>
      if setNativeProps c then emit (EvSetNativeProps (cid c) patch) else mret ()
  end.

(** [_attachPropUpdater], lines 236-242. *)
Definition _attachPropUpdater : M unit :=
  this ← this_;
  let viewTag := findNodeHandle (TInstance (iid this)) in
  set_env (λ v, with_NODE_MAPPING (<[viewTag := iid this]> (NODE_MAPPING v)) v) ;;
  v ← env_;
  if bool_decide (size (NODE_MAPPING v) = 1) then
    addListener "onReanimatedPropsChange" ModuleListener
  else mret ().

(** [_detachPropUpdater], lines 302-308. *)
Definition _detachPropUpdater : M unit :=
  this ← this_;
  let viewTag := findNodeHandle (TInstance (iid this)) in
  set_env (λ v, with_NODE_MAPPING (delete viewTag (NODE_MAPPING v)) v) ;;
  v ← env_;
  if bool_decide (size (NODE_MAPPING v) = 0) then
    removeAllListeners "onReanimatedPropsChange"
  else mret ().

(** [_hasReanimated2Props], lines 288-300. *)
Definition hasOwn_viewDescriptors (style : value) : bool :=
  match style with
  | VStyle _ _ => true
  | VObj fields => bool_decide (is_Some (assoc_get "viewDescriptors" fields))
  | _ => false
  end.

Definition _hasReanimated2Props (current : Props) (flattenStyles : list value) : bool :=
  if probe_truthy (probe_viewDescriptors (get_field "animatedProps" current)) then true
  else if truthy (get_field "style" current) then existsb hasOwn_viewDescriptors flattenStyles
  else false.

(** [x.viewDescriptors.add(d)] behind the test [x?.viewDescriptors]: plain
    data carries no set, a truthy answer from it has no [add] to call. *)
Definition add_descriptor_if_any (x : value) (d : Descriptor) : M unit :=
  match probe_viewDescriptors x with
  | ProbeSet l => viewDescriptors_add l d
  | ProbePlain v =>
      if truthy v then throw (TypeError "viewDescriptors.add is not a function")
      else mret ()
  end.

(** [_attachAnimatedStyles], lines 244-286. *)
Definition _attachAnimatedStyles : M unit :=
  this ← this_;
  let style := get_field "style" (props this) in
  let styles := _flattenArray (as_array style) in
  d ← (if bool_decide (Platform_OS = "web") then
         mret (mkDescriptor (findNodeHandle (TInstance (iid this))) None)
       else
         match findHostInstance_DEPRECATED (iid this) with
         | None =>
             throw host_instance_error
         | Some hostInstance =>
             (if _hasReanimated2Props (props this) styles then
                emit (EvAdaptViewConfig (viewConfig hostInstance))
              else mret ()) ;;
             mret (mkDescriptor (_nativeTag hostInstance)
                     (viewConfig hostInstance ≫= uiViewClassName))
         end);
  for_each styles (λ style, add_descriptor_if_any style d) ;;
  add_descriptor_if_any (get_field "animatedProps" (props this)) d.

(** The constructor, lines 71-74, on a fresh instance. *)
Definition new_instance (i : N) (p : Props) : Instance :=
  mkInstance i p None None false.

Definition constructor : M unit :=
  this ← this_;
  _attachProps (props this).

(** [componentWillUnmount], lines 76-80. *)
Definition componentWillUnmount : M unit :=
  _detachPropUpdater ;;
  this ← this_;
  match _propsAnimated this with
  | Some n => emit (EvDetachPropsNode n)
  | None => mret ()
  end ;;
  _detachNativeEvents.

(** [this._propsAnimated && this._propsAnimated.setNativeView(this._component)]. *)
Definition setNativeView_if_any : M unit :=
  this ← this_;
  match _propsAnimated this with
  | Some n => emit (EvSetNativeView n (cid <$> _component this))
  | None => mret ()
  end.

(** [componentDidMount], lines 82-92. *)
Definition componentDidMount : M unit :=
  this ← this_;
  (if _invokeAnimatedPropsCallbackOnMount this then
     set_self (with_invokeOnMount false) ;;
     _animatedPropsCallback
   else mret ()) ;;
  setNativeView_if_any ;;
  _attachNativeEvents ;;
  _attachPropUpdater ;;
  _attachAnimatedStyles.

(** [componentDidUpdate], lines 310-316; [this.props] already holds the
    new props. *)
Definition componentDidUpdate (prevProps : Props) : M unit :=
  this ← this_;
  _attachProps (props this) ;;
  _reattachNativeEvents prevProps ;;
  setNativeView_if_any ;;
  _attachAnimatedStyles.

(** [setLocalRef] of [_setComponentRef], lines 320-338. *)
Definition setLocalRef (ref : option Component) : M unit :=
  set_self (with_component
    (match ref with
     | Some c => Some (mkComponent (cid c) (setNativeProps c) (getScrollableNode c) true)
     | None => None
     end)).

(** The body of the loop of [_filterNonAnimatedStyle], lines 344-351. *)
Definition filter_style_key (inputStyle style : list (string * value)) (key : string)
  : list (string * value) :=
  let value := get_field key inputStyle in
  if negb (hasAnimatedNodes value) then obj_set key value style
  else
    match value with
    | VNode AnimatedValue _ start => obj_set key start style
    | _ => style
    end.

(** [_filterNonAnimatedStyle], lines 341-354. *)
Definition _filterNonAnimatedStyle (inputStyle : list (string * value))
  : list (string * value) :=
  foldl (filter_style_key inputStyle) [] (keys inputStyle).

(** [Object.keys(x)] with the values under them; [None] is the TypeError
    on [null] and [undefined].  Arrays and strings have their indices as
    keys; the fields of class instances are not enumerated. *)
Definition own_entries (x : value) : option (list (string * value)) :=
  match x with
  | VUndefined | VNull => None
  | VObj fields => Some fields
  | VArr items => Some (imap (λ i item, (pretty i, item)) items)
  | VStr s =>
      Some (imap (λ i c, (pretty i, VStr (String c EmptyString)))
                 (String.list_ascii_of_string s))
  | _ => Some []
  end.

(** One entry of the [style] array in [_filterNonAnimatedProps], lines
    362-370.  Plain data is never written to: [style.viewRef.push] on it
    is a TypeError. *)
Definition process_style_entry (this : Instance) (style : value) : M value :=
  if truthy style && probe_truthy (probe_viewDescriptors style) then
    match style with
    | VStyle l initial => viewRef_push l (iid this) ;; mret (VObj initial)
    | _ => throw (TypeError "style.viewRef.push")
    end
  else mret style.

(** The body of the loop of [_filterNonAnimatedProps], lines 359-403:
    what one key of [inputProps] does to the [props] under construction. *)
Definition project_prop (inputProps : Props) (this : Instance) (props : Props)
    (key : string) : M Props :=
  let value := get_field key inputProps in
  if bool_decide (key = "style") then
    let styles := as_array value in
    processedStyle ← map_M styles (process_style_entry this);
    mret (obj_set key (VObj (_filterNonAnimatedStyle (StyleSheet_flatten processedStyle)))
            props)
  else if bool_decide (key = "animatedProps") then
    match value with
    | VUndefined | VNull => throw (TypeError "value.initial")
    | _ =>
        match own_entries (get_prop "initial" value) with
        | None => throw (TypeError "Object.keys")
        | Some entries =>
            mret (foldl (λ props key, obj_set key (get_field key entries) props)
                    props (keys entries))
        end
    end
  else if is_class AnimatedEvent value then
    mret (obj_set key dummyListener props)
  else
    match get_prop "current" value with
    | VHandler _ eventNames listeners _ =>
        if bool_decide (0 < length eventNames) then
          mret (foldl (λ props eventName,
                  obj_set eventName
                    (match listeners with
                     | Some ls => get_field eventName ls
                     | None => dummyListener
                     end) props)
                  props eventNames)
        else mret (obj_set key dummyListener props)
    | _ =>
        if negb (is_AnimatedNode value) then mret (obj_set key value props)
        else
          match value with
          | VNode AnimatedValue _ start => mret (obj_set key start props)
          | _ => mret props
          end
    end.

(** [_filterNonAnimatedProps], lines 356-406. *)
Definition _filterNonAnimatedProps (inputProps : Props) : M Props :=
  this ← this_;
  for_in_acc (keys inputProps) ([] : Props) (project_prop inputProps this).

(** [render], lines 408-417: the props handed to the wrapped component. *)
Definition render : M Props :=
  this ← this_;
  props ← _filterNonAnimatedProps (props this);
  let platformProps :=
    if bool_decide (Platform_OS = "web") then []
    else [("collapsable", VBool false)] in
  mret (foldl (λ acc key, obj_set key (get_field key platformProps) acc)
          props (keys platformProps)).

(** ** The native notification path *)

(** All mounted instances together with the shared state. *)
Record World : Type := mkWorld {
  instances : gmap N Instance;
  shared : Env
}.

(** [listener], lines 18-21: the instance found in [NODE_MAPPING] runs
    [_updateFromNative]; without an entry nothing happens. *)
Definition listener (viewTag : Tag) (patch : value) (w : World)
  : Outcome unit * World :=
  match NODE_MAPPING (shared w) !! viewTag with
  | None => (Ok (), w)
  | Some i =>
      match instances w !! i with
      | None => (Ok (), w)
      | Some component =>
          let '(r, s) := _updateFromNative patch (mkState component (shared w)) in
          (r, mkWorld (<[i := self s]> (instances w)) (env s))
      end
  end.

End Code.

(** ** A concrete host *)

(** React Native's [StyleSheet.flatten], the platform style flattening the
    file imports: [null], [undefined] and primitives give [undefined]
    ([None]), a single object is returned as it is, an array is merged left
    to right into a fresh object. *)
Fixpoint flattenStyle_value (style : value) : option (list (string * value)) :=
  match style with
  | VArr items =>
      Some (foldl (λ result item,
              match flattenStyle_value item with
              | Some computedStyle =>
                  foldl (λ result key, obj_set key (get_field key computedStyle) result)
                        result (keys computedStyle)
              | None => result
              end) [] items)
  | VObj fields => Some fields
  | VNode _ _ _ | VStyle _ _ | VHandler _ _ _ _ => Some []
  | _ => None
  end.

Definition flattenStyle (styles : list value) : list (string * value) :=
  default [] (flattenStyle_value (VArr styles)).

(** A native host on which every instance resolves to a view whose tag is
    the instance identity, and a props graph binder that reuses the old
    node as long as the props stay [{}] and builds node [old + 1]
    otherwise. *)
Definition native_host : Host := {|
  Platform_OS := "ios";
  findNodeHandle := λ t,
    match t with TInstance i => Some i | TComponent c => Some c | TNode n => Some n end;
  findHostInstance_DEPRECATED := λ i,
    Some (mkHostInstance (Some i) (Some (mkViewConfig (Some "RCTView"))));
  createOrReusePropsNode := λ nextProps old,
    match old, nextProps with
    | Some n, [] => Some n
    | Some n, _ => Some (n + 1)%N
    | None, _ => Some 1%N
    end;
  __getValue := λ n, VObj [];
  StyleSheet_flatten := flattenStyle
|}.



Definition empty_env : Env := mkEnv ∅ ∅ ∅ ∅ ∅ [].

(** A wrapped view with [setNativeProps], and a composite without. *)
Definition native_view (c : N) : Component := mkComponent c true None true.
Definition composite_view (c : N) : Component := mkComponent c false None true.

(** ** The registry as a sequence of operations *)

(** [register] is [_attachPropUpdater] and [unregister] is
    [_detachPropUpdater], each run by some instance on the shared state. *)
Inductive RegistryOp : Type :=
  | Register (this : Instance)
  | Unregister (this : Instance).

Definition registry_step {host : Host} (op : RegistryOp) (v : Env) : Env :=
  match op with
  | Register this => env (_attachPropUpdater (mkState this v)).2
  | Unregister this => env (_detachPropUpdater (mkState this v)).2
  end.

Definition registry_run {host : Host} (ops : list RegistryOp) (v : Env) : Env :=
  foldl (λ v op, registry_step op v) v ops.

Definition channel : string := "onReanimatedPropsChange".

(** The module's listener is on the notification channel. *)
Definition subscribed (v : Env) : Prop :=
  ModuleListener ∈ listeners_of channel (emitter v).

Definition subscribe_call : Event := EvAddListener channel ModuleListener.
Definition unsubscribe_call : Event := EvRemoveAllListeners channel.

(** ** Premature firings of the update callback *)

(** [n] firings of [_animatedPropsCallback] in a row. *)
Fixpoint fire {host : Host} (n : nat) : M unit :=
  match n with
  | O => mret ()
  | S k => _animatedPropsCallback ;; fire k
  end.

(** The two calls [_animatedPropsCallback] can make, and nothing else in
    the file makes on its own. *)
Definition callback_effect (e : Event) : bool :=
  match e with
  | EvForceUpdate _ | EvSetNativeProps _ _ => true
  | _ => false
  end.

(** The callback's calls within a stretch of the trace. *)
Definition callback_calls (evs : list Event) : list Event :=
  List.filter callback_effect evs.

(** A computation that leaves the instance as it is and makes only calls
    that pass [ok], whether it ends normally or not. *)
Definition confined {A : Type} (ok : Event → bool) (m : M A) : Prop :=
  ∀ s, self (m s).2 = self s
       ∧ ∃ evs, trace (env (m s).2) = trace (env s) ++ evs
                ∧ Forall (λ e, ok e = true) evs.

(** Confined to anything but the callback's calls. *)
Definition quiet {A : Type} (m : M A) : Prop :=
  confined (λ e, negb (callback_effect e)) m.

(** [detachEvent] calls. *)
Definition is_detachEvent (e : Event) : bool :=
  match e with
  | EvDetachEvent _ _ _ => true
  | _ => false
  end.

(** ** Sample props for the event differ *)

Definition handlerA : value := VNode AnimatedEvent 1 VUndefined.
Definition handlerB : value := VNode AnimatedEvent 2 VUndefined.

(** A mounted instance with the given props over a native view. *)
Definition mounted_instance (p : Props) : State :=
  mkState (mkInstance 10 p (Some (native_view 20)) (Some 1%N) false) empty_env.

(** ** Reading the projection *)





(** The keys an entry of the props splices into the projection besides
    its own: those of [animatedProps.initial] and the event names of a
    handler. *)
Definition spliced_by (key : string) (value : value) : list string :=
  if bool_decide (key = "style") then []
  else if bool_decide (key = "animatedProps") then
    match own_entries (get_prop "initial" value) with
    | Some entries => keys entries
    | None => []
    end
  else if is_class AnimatedEvent value then []
  else
    match get_prop "current" value with
    | VHandler _ eventNames _ _ => eventNames
    | _ => []
    end.

Definition spliced_keys (current : Props) : list string :=
  flat_map (λ key, spliced_by key (get_field key current)) (keys current).

(** ** Further sample inputs *)

(** An arrow-function component (no prototype) and a class component. *)
Definition arrow_component : ComponentArg := mkComponentArg true VUndefined.
Definition class_component : ComponentArg :=
  mkComponentArg true (VObj [("isReactComponent", VObj [])]).

(** An instance that is constructed but not mounted yet. *)
Definition unmounted_instance (p : Props) : State :=
  mkState (mkInstance 10 p None (Some 1%N) false) empty_env.

(** A registry holding instance 10 alone, with a listener of somebody
    else next to the module's own on the channel. *)
Definition last_entry_env : Env :=
  mkEnv {[Some 10%N := 10%N]} {[channel := [ModuleListener; OtherListener 5]]} ∅ ∅ ∅ [].

(** A world in which the registered instance wraps a composite component. *)
Definition composite_world : World :=
  mkWorld {[10%N := mkInstance 10 [] (Some (composite_view 20)) (Some 1%N) false]}
          last_entry_env.

(** A style produced by the animated-style hook, a style with an animated
    value bound directly to a property, and one with an animated value
    inside a transform. *)
Definition animated_style : value := VStyle 7%N [("opacity", VNum 1)].
Definition progress : value := VNode AnimatedValue 3 (VNum 5).
Definition direct_style : value := VObj [("opacity", progress)].

(** What a mounted instance on the native host renders from its props;
    [[]] stands in when the projection throws. *)
Definition projected (p : Props) : Props :=
  match (@_filterNonAnimatedProps native_host p (mounted_instance p)).1 with
  | Ok out => out
  | Throw _ => []
  end.

(** ** Vocabulary for the further properties *)

(** [Array.isArray]. *)
Definition isArray (v : value) : bool :=
  match v with
  | VArr _ => true
  | _ => false
  end.

(** The call that undoes a mount-time call: [detachEvent] for
    [attachEvent], [unregisterFromEvents] for [registerForEvents]. *)
Definition undo_call (e : Event) : Event :=
  match e with
  | EvAttachEvent id view key => EvDetachEvent id view key
  | EvRegisterForEvents l _ _ => EvUnregisterFromEvents l
  | _ => e
  end.

(** The state with some more calls on the trace. *)
Definition add_trace (evs : list Event) (s : State) : State :=
  mkState (self s)
    (mkEnv (NODE_MAPPING (env s)) (emitter (env s)) (viewRef (env s))
           (viewDescriptors (env s)) (reattachNeeded (env s)) (trace (env s) ++ evs)).

(** The calls [_attachNativeEvents] makes. *)
Definition is_mount_call (e : Event) : bool :=
  match e with
  | EvAttachEvent _ _ _ | EvRegisterForEvents _ _ _ => true
  | _ => false
  end.


(** A computation that leaves some reading of the state as it is. *)
Definition keeps {A X : Type} (f : State → X) (m : M A) : Prop :=
  ∀ s, f (m s).2 = f s.

(** A computation that never throws. *)
Definition succeeds {A : Type} (m : M A) : Prop :=
  ∀ s, ∃ a, (m s).1 = Ok a.

(** A computation under which every descriptor set keeps what it has. *)
Definition descriptors_grow {A : Type} (m : M A) : Prop :=
  ∀ s l, default [] (viewDescriptors (env s) !! l)
         `prefix_of` default [] (viewDescriptors (env (m s).2) !! l).

(** ** Sample inputs for the further properties *)

(** A handler reference as a hook returns it, and an instance that binds
    it while the handler's [reattachNeeded] flag is up. *)
Definition press_handler : value :=
  VObj [("current", VHandler 4%N ["onPress"] None None)].

Definition flagged_instance : State :=
  mkState (mkInstance 10 [("onPress", press_handler)] (Some (native_view 20))
             (Some 1%N) false)
          (mkEnv ∅ ∅ ∅ ∅ {[4%N]} []).

(** A world whose one instance wraps a native view. *)
Definition native_instance : Instance :=
  mkInstance 10 [] (Some (native_view 20)) (Some 1%N) false.

Definition native_world : World := mkWorld {[10%N := native_instance]} empty_env.

(** An animated style inside nested style arrays. *)
Definition nested_styles : value := VArr [VNull; VArr [animated_style]].

(** * Properties *)

(** Unfolding of the monad's plumbing. *)
Ltac unfold_M :=
  unfold mbind, mret, M_bind, M_ret, throw, this_, env_, emit, set_self, set_env in *.

Section Properties.
Context {host : Host}.

(** ** The guard of the wrap constructor *)

(** C8: a function component whose prototype is missing or does not carry
    [isReactComponent] is rejected by [createAnimatedComponent] itself, with
    the descriptive invariant message; a class component, whose prototype
    carries a truthy [isReactComponent], is accepted. *)
Theorem createAnimatedComponent_rejects_function_components (C : ComponentArg) :
  typeof_function C = true →
  (truthy (prototype C) && truthy (get_prop "isReactComponent" (prototype C)) = false →
   createAnimatedComponent C = Throw (InvariantViolation
     "`createAnimatedComponent` does not support stateless functional components; use a class component instead."))
  ∧ (truthy (prototype C) && truthy (get_prop "isReactComponent" (prototype C)) = true →
     createAnimatedComponent C = Ok ()).
Proof.
  intros Hfun. unfold createAnimatedComponent, createAnimatedComponent_guard.
  rewrite Hfun. simpl. split; intros ->; reflexivity.
Qed.

(** ** The props graph binder *)

(** C2: [_attachProps] first asks the binder, then installs its answer as
    the instance's node; when the answer is the node it was given nothing
    is detached, and when it is another node the old one, if there was one,
    is detached exactly once and after the installation. *)
Theorem attachProps_installs_before_detach (s : State) (nextProps : Props) :
  let old := _propsAnimated (self s) in
  let node := createOrReusePropsNode nextProps old in
  let create := EvCreateOrReusePropsNode (iid (self s)) nextProps old in
  let install := EvInstallPropsNode (iid (self s)) node in
  let after := (_attachProps nextProps s).2 in
  (_attachProps nextProps s).1 = Ok ()
  ∧ _propsAnimated (self after) = node
  ∧ (node = old → trace (env after) = trace (env s) ++ [create; install])
  ∧ (old = None → trace (env after) = trace (env s) ++ [create; install])
  ∧ (∀ o, old = Some o → node ≠ old →
       trace (env after) = trace (env s) ++ [create; install; EvDetachPropsNode o]).
Proof.
  intros old node create install after.
  subst after. unfold _attachProps. unfold_M. simpl.
  fold old. fold node.
  destruct (bool_decide (old = node)) eqn:E.
  - apply bool_decide_eq_true in E. simpl.
    repeat split; try (intros; rewrite <- app_assoc; reflexivity).
    intros o _ Hne. congruence.
  - apply bool_decide_eq_false in E. simpl.
    destruct old as [o|] eqn:Hold; simpl.
    + repeat split; try congruence.
      intros o' [= <-] _. rewrite <- !app_assoc. reflexivity.
    + repeat split; try congruence; intros; rewrite <- app_assoc; reflexivity.
Qed.


(** ** The registry and its subscription *)

Lemma NODE_MAPPING_register (this : Instance) (v : Env) :
  NODE_MAPPING (registry_step (Register this) v)
  = <[findNodeHandle (TInstance (iid this)) := iid this]> (NODE_MAPPING v).
Proof.
  unfold registry_step, _attachPropUpdater, addListener. unfold_M.
  cbn [self env iid with_NODE_MAPPING NODE_MAPPING].
  destruct (bool_decide _); reflexivity.
Qed.

Lemma NODE_MAPPING_unregister (this : Instance) (v : Env) :
  NODE_MAPPING (registry_step (Unregister this) v)
  = delete (findNodeHandle (TInstance (iid this))) (NODE_MAPPING v).
Proof.
  unfold registry_step, _detachPropUpdater, removeAllListeners. unfold_M.
  cbn [self env iid with_NODE_MAPPING NODE_MAPPING].
  destruct (bool_decide _); reflexivity.
Qed.

Lemma trace_register (this : Instance) (v : Env) :
  trace (registry_step (Register this) v)
  = trace v ++
      (if bool_decide (size (NODE_MAPPING (registry_step (Register this) v)) = 1)
       then [subscribe_call] else []).
Proof.
  rewrite NODE_MAPPING_register.
  unfold registry_step, _attachPropUpdater, addListener. unfold_M.
  cbn [self env iid with_NODE_MAPPING NODE_MAPPING].
  destruct (bool_decide _); cbn [snd env trace with_emitter];
    [reflexivity | by rewrite app_nil_r].
Qed.

Lemma trace_unregister (this : Instance) (v : Env) :
  trace (registry_step (Unregister this) v)
  = trace v ++
      (if bool_decide (size (NODE_MAPPING (registry_step (Unregister this) v)) = 0)
       then [unsubscribe_call] else []).
Proof.
  rewrite NODE_MAPPING_unregister.
  unfold registry_step, _detachPropUpdater, removeAllListeners. unfold_M.
  cbn [self env iid with_NODE_MAPPING NODE_MAPPING].
  destruct (bool_decide _); cbn [snd env trace with_emitter];
    [reflexivity | by rewrite app_nil_r].
Qed.

Lemma emitter_register (this : Instance) (v : Env) :
  emitter (registry_step (Register this) v)
  = if bool_decide (size (NODE_MAPPING (registry_step (Register this) v)) = 1)
    then <[channel := listeners_of channel (emitter v) ++ [ModuleListener]]> (emitter v)
    else emitter v.
Proof.
  rewrite NODE_MAPPING_register.
  unfold registry_step, _attachPropUpdater, addListener. unfold_M.
  cbn [self env iid with_NODE_MAPPING NODE_MAPPING].
  destruct (bool_decide _); reflexivity.
Qed.

Lemma emitter_unregister (this : Instance) (v : Env) :
  emitter (registry_step (Unregister this) v)
  = if bool_decide (size (NODE_MAPPING (registry_step (Unregister this) v)) = 0)
    then delete channel (emitter v)
    else emitter v.
Proof.
  rewrite NODE_MAPPING_unregister.
  unfold registry_step, _detachPropUpdater, removeAllListeners. unfold_M.
  cbn [self env iid with_NODE_MAPPING NODE_MAPPING].
  destruct (bool_decide _); reflexivity.
Qed.

Lemma registry_step_invariant (op : RegistryOp) (v : Env) :
  (subscribed v ↔ NODE_MAPPING v ≠ ∅) →
  (subscribed (registry_step op v) ↔ NODE_MAPPING (registry_step op v) ≠ ∅).
Proof.
  intros Hinv. unfold subscribed in *. destruct op as [this|this].
  - rewrite emitter_register, NODE_MAPPING_register.
    set (m := <[_ := _]> (NODE_MAPPING v)).
    assert (Hne : m ≠ ∅) by apply insert_non_empty.
    split; [done|]. intros _.
    case_bool_decide as Hsize.
    + unfold listeners_of at 1. rewrite lookup_insert_eq.
      apply elem_of_app. right. by apply list_elem_of_singleton.
    + apply Hinv. intros Hempty. apply Hsize. subst m.
      rewrite Hempty, insert_empty. apply map_size_singleton.
  - rewrite emitter_unregister, NODE_MAPPING_unregister.
    set (m := delete _ (NODE_MAPPING v)).
    case_bool_decide as Hsize.
    + apply map_size_empty_iff in Hsize. split; [|done].
      unfold listeners_of. rewrite lookup_delete_eq. intros Hin.
      by apply not_elem_of_nil in Hin.
    + assert (Hne : m ≠ ∅) by (by apply map_size_non_empty_iff).
      split; [done|]. intros _. apply Hinv.
      intros Hempty. apply Hne. subst m. rewrite Hempty. apply delete_empty.
Qed.




(** C9: when [_detachPropUpdater] removes the only entry of the registry,
    no listener at all is left on the notification channel, whoever added
    it, and the one call made is [removeAllListeners] on that channel. *)
Theorem detachPropUpdater_removes_every_listener (s : State) (i : N) :
  NODE_MAPPING (env s) = {[findNodeHandle (TInstance (iid (self s))) := i]} →
  let after := (_detachPropUpdater s).2 in
  (_detachPropUpdater s).1 = Ok ()
  ∧ NODE_MAPPING (env after) = ∅
  ∧ listeners_of channel (emitter (env after)) = []
  ∧ (∀ other, other ≠ channel →
       listeners_of other (emitter (env after)) = listeners_of other (emitter (env s)))
  ∧ trace (env after) = trace (env s) ++ [unsubscribe_call].
Proof.
  intros Hm after. subst after.
  unfold _detachPropUpdater, removeAllListeners. unfold_M.
  cbn [self env iid with_NODE_MAPPING NODE_MAPPING].
  rewrite Hm, delete_singleton_eq, map_size_empty.
  rewrite bool_decide_eq_true_2 by done.
  cbn [fst snd env NODE_MAPPING emitter trace with_emitter].
  repeat split.
  - unfold listeners_of, channel. by rewrite lookup_delete_eq.
  - intros other Hne. unfold listeners_of. by rewrite lookup_delete_ne.
Qed.

(** ** The native notification path *)

(** C10: a notification for a view tag that is in the registry, delivered
    to an instance whose component has no [setNativeProps], changes
    nothing: no error, no call, no forced update. *)
Theorem listener_without_setNativeProps_discards (w : World) (viewTag : Tag)
    (patch : value) (i : N) (this : Instance) (c : Component) :
  NODE_MAPPING (shared w) !! viewTag = Some i →
  instances w !! i = Some this →
  _component this = Some c →
  setNativeProps c = false →
  listener viewTag patch w = (Ok (), w).
Proof.
  intros Hreg Hinst Hc Hno. unfold listener. rewrite Hreg, Hinst.
  unfold _updateFromNative. unfold_M. cbn [self]. rewrite Hc, Hno.
  cbn [self env]. rewrite insert_id by done. by destruct w.
Qed.


(** ** Computations confined to some calls *)

Section Confined.
Context (ok : Event → bool).

Lemma confined_ret {A : Type} (a : A) : confined ok (mret a).
Proof. intros s. split; [done|]. exists []. by rewrite app_nil_r. Qed.

Lemma confined_throw {A : Type} (e : Error) : confined ok (throw e : M A).
Proof. intros s. split; [done|]. exists []. by rewrite app_nil_r. Qed.

Lemma confined_bind {A B : Type} (m : M A) (f : A → M B) :
  confined ok m → (∀ a, confined ok (f a)) → confined ok (m ≫= f).
Proof.
  intros Hm Hf s. unfold mbind, M_bind.
  destruct (Hm s) as (Hself & evs & Htr & Hevs).
  destruct (m s) as [[a|e] s1]; cbn [snd] in *.
  - destruct (Hf a s1) as (Hself' & evs' & Htr' & Hevs').
    split; [congruence|]. exists (evs ++ evs').
    rewrite Htr', Htr, app_assoc. split; [done|]. by apply Forall_app.
  - split; [done|]. by exists evs.
Qed.

Lemma confined_this : confined ok this_.
Proof. intros s. split; [done|]. exists []. by rewrite app_nil_r. Qed.

Lemma confined_env : confined ok env_.
Proof. intros s. split; [done|]. exists []. by rewrite app_nil_r. Qed.

Lemma confined_set_env (f : Env → Env) :
  (∀ v, trace (f v) = trace v) → confined ok (set_env f).
Proof.
  intros Hf s. split; [done|]. exists []. cbn. by rewrite Hf, app_nil_r.
Qed.

Lemma confined_emit (e : Event) : ok e = true → confined ok (emit e).
Proof.
  intros He s. split; [done|]. exists [e]. split; [done|]. by constructor.
Qed.

Lemma confined_for_in (ks : list string) (body : string → M unit) :
  (∀ key, confined ok (body key)) → confined ok (for_in ks body).
Proof.
  intros Hbody. induction ks as [|key ks IH]; cbn [for_in].
  - apply confined_ret.
  - apply confined_bind; [apply Hbody | intros _; apply IH].
Qed.

Lemma confined_for_each {A : Type} (items : list A) (body : A → M unit) :
  (∀ item, confined ok (body item)) → confined ok (for_each items body).
Proof.
  intros Hbody. induction items as [|item items IH]; cbn [for_each].
  - apply confined_ret.
  - apply confined_bind; [apply Hbody | intros _; apply IH].
Qed.

Lemma confined_for_in_acc {A : Type} (ks : list string) (acc : A)
    (body : A → string → M A) :
  (∀ acc key, confined ok (body acc key)) → confined ok (for_in_acc ks acc body).
Proof.
  intros Hbody. revert acc. induction ks as [|key ks IH]; intros acc; cbn [for_in_acc].
  - apply confined_ret.
  - apply confined_bind; [apply Hbody | intros acc'; apply IH].
Qed.

End Confined.

(** Breaks a computation down along its binds, loops and branches. *)
Ltac confined_step :=
  match goal with
  | |- confined _ (mbind _ _) => apply confined_bind; [|intros ?]
  | |- confined _ (mret _) => apply confined_ret
  | |- confined _ (throw _) => apply confined_throw
  | |- confined _ this_ => apply confined_this
  | |- confined _ env_ => apply confined_env
  | |- confined _ (emit _) => apply confined_emit; reflexivity
  | |- confined _ (set_env _) => apply confined_set_env; intros ?; reflexivity
  | |- confined _ (for_in _ _) => apply confined_for_in; intros ?
  | |- confined _ (for_each _ _) => apply confined_for_each; intros ?
  | |- confined _ (for_in_acc _ _ _) => apply confined_for_in_acc; intros ? ?
  | |- confined _ (if ?b then _ else _) => destruct b
  | |- confined _ (match ?x with _ => _ end) => destruct x
  | |- confined _ (let _ := _ in _) => cbv zeta
  end.

Lemma confined_getEventViewRef (ok : Event → bool) : confined ok _getEventViewRef.
Proof. unfold _getEventViewRef. repeat confined_step. Qed.

Lemma quiet_attachNativeEvents : quiet _attachNativeEvents.
Proof.
  unfold quiet, _attachNativeEvents.
  apply confined_bind; [apply confined_getEventViewRef|intros node].
  repeat confined_step.
Qed.

Lemma quiet_attachPropUpdater : quiet _attachPropUpdater.
Proof. unfold quiet, _attachPropUpdater, addListener. repeat confined_step. Qed.

Lemma quiet_add_descriptor_if_any (x : value) (d : Descriptor) :
  quiet (add_descriptor_if_any x d).
Proof.
  unfold quiet, add_descriptor_if_any, viewDescriptors_add. repeat confined_step.
Qed.

Lemma quiet_attachAnimatedStyles : quiet _attachAnimatedStyles.
Proof.
  unfold quiet, _attachAnimatedStyles.
  apply confined_bind; [apply confined_this|intros this].
  cbv zeta. apply confined_bind.
  - repeat confined_step.
  - intros d. apply confined_bind.
    + apply confined_for_each. intros x. apply quiet_add_descriptor_if_any.
    + intros _. apply quiet_add_descriptor_if_any.
Qed.

Lemma quiet_setNativeView_if_any : quiet setNativeView_if_any.
Proof. unfold quiet, setNativeView_if_any. repeat confined_step. Qed.

Lemma callback_calls_quiet (evs : list Event) :
  Forall (λ e, negb (callback_effect e) = true) evs → callback_calls evs = [].
Proof.
  induction 1 as [|e evs He _ IH]; [done|].
  unfold callback_calls in *. cbn [List.filter].
  apply negb_true_iff in He. by rewrite He.
Qed.

Lemma quiet_mount_rest :
  quiet (setNativeView_if_any ;; _attachNativeEvents ;; _attachPropUpdater ;;
         _attachAnimatedStyles).
Proof.
  apply confined_bind; [apply quiet_setNativeView_if_any|intros _].
  apply confined_bind; [apply quiet_attachNativeEvents|intros _].
  apply confined_bind; [apply quiet_attachPropUpdater|intros _].
  apply quiet_attachAnimatedStyles.
Qed.

(** ** The deferred update callback *)

Lemma animatedPropsCallback_premature (s : State) :
  _component (self s) = None →
  _animatedPropsCallback s = (Ok (), mkState (with_invokeOnMount true (self s)) (env s)).
Proof. intros Hc. unfold _animatedPropsCallback. unfold_M. by rewrite Hc. Qed.

Lemma fire_premature (n : nat) (s : State) :
  _component (self s) = None →
  fire n s = (Ok (), match n with
                     | O => s
                     | S _ => mkState (with_invokeOnMount true (self s)) (env s)
                     end).
Proof.
  revert s. induction n as [|k IH]; intros s Hc; [done|].
  cbn [fire]. unfold mbind, M_bind.
  rewrite animatedPropsCallback_premature by done.
  rewrite IH by done. by destruct k.
Qed.

Lemma animatedPropsCallback_mounted (s : State) (c : Component) :
  _component (self s) = Some c →
  (setNativeProps c = true → is_Some (_propsAnimated (self s))) →
  ∃ e, callback_effect e = true
       ∧ (_animatedPropsCallback s).1 = Ok ()
       ∧ self (_animatedPropsCallback s).2 = self s
       ∧ trace (env (_animatedPropsCallback s).2) = trace (env s) ++ [e].
Proof.
  intros Hc Hnode. unfold _animatedPropsCallback. unfold_M. rewrite Hc.
  destruct (setNativeProps c) eqn:Hset; cbn [negb].
  - destruct (Hnode eq_refl) as [n Hn]. rewrite Hn.
    by exists (EvSetNativeProps (cid c) (__getValue n)).
  - by exists (EvForceUpdate (iid (self s))).
Qed.

(** C6: while no component reference is available every firing of the
    update callback only raises the deferral flag; [componentDidMount] then
    runs the callback once if the flag is up, however many firings raised
    it, and not at all otherwise, and the flag is down afterwards. *)
Theorem premature_callback_replayed_once (s : State) (n : nat) (c : Component) :
  _component (self s) = None →
  _invokeAnimatedPropsCallbackOnMount (self s) = false →
  (setNativeProps c = true → is_Some (_propsAnimated (self s))) →
  let fired := (fire n s).2 in
  let mounted := (componentDidMount (setLocalRef (Some c) fired).2).2 in
  (fire n s).1 = Ok ()
  ∧ trace (env fired) = trace (env s)
  ∧ _invokeAnimatedPropsCallbackOnMount (self fired) = bool_decide (0 < n)
  ∧ _invokeAnimatedPropsCallbackOnMount (self mounted) = false
  ∧ ∃ evs, trace (env mounted) = trace (env s) ++ evs
           ∧ length (callback_calls evs) = (if bool_decide (0 < n) then 1 else 0).
Proof.
  intros Hc Hflag Hnode fired mounted. subst mounted fired.
  rewrite fire_premature by done. cbn [fst snd].
  split; [done|]. split; [by destruct n|].
  split; [destruct n; [done|]; by rewrite bool_decide_eq_true_2 by lia|].
  set (s1 := (setLocalRef _ _).2).
  assert (Hself1 : self s1 = with_component
            (Some (mkComponent (cid c) (setNativeProps c) (getScrollableNode c) true))
            (match n with O => self s | S _ => with_invokeOnMount true (self s) end)).
  { subst s1. by destruct n. }
  assert (Henv1 : env s1 = env s) by (subst s1; by destruct n).
  clearbody s1.
  pose proof quiet_mount_rest as Hrest.
  set (rest := setNativeView_if_any ;; _attachNativeEvents ;; _attachPropUpdater ;;
               _attachAnimatedStyles) in *.
  destruct n as [|k].
  - (* never fired: the flag is down and the callback is not replayed *)
    assert (Hf : _invokeAnimatedPropsCallbackOnMount (self s1) = false)
      by (by rewrite Hself1).
    assert (Hmount : componentDidMount s1 = rest s1).
    { unfold componentDidMount. unfold mbind at 1, M_bind at 1, this_ at 1.
      cbv beta iota. by rewrite Hf. }
    rewrite Hmount.
    destruct (Hrest s1) as (Hself & evs & Htr & Hevs).
    split; [by rewrite Hself|].
    exists evs. rewrite Htr, Henv1. split; [done|].
    by rewrite callback_calls_quiet.
  - (* fired: one replay, then the rest of the mount *)
    assert (Hf : _invokeAnimatedPropsCallbackOnMount (self s1) = true)
      by (by rewrite Hself1).
    rewrite bool_decide_eq_true_2 by lia.
    set (s2 := mkState (with_invokeOnMount false (self s1)) (env s1)).
    assert (Hmount : componentDidMount s1 =
                     match _animatedPropsCallback s2 with
                     | (Ok _, s3) => rest s3
                     | (Throw e, s3) => (Throw e, s3)
                     end).
    { unfold componentDidMount. unfold mbind at 1, M_bind at 1, this_ at 1.
      cbv beta iota. by rewrite Hf. }
    rewrite Hmount.
    destruct (animatedPropsCallback_mounted s2
                (mkComponent (cid c) (setNativeProps c) (getScrollableNode c) true))
      as (e & He & Hok & Hself2 & Htr2).
    { subst s2. by rewrite Hself1. }
    { subst s2. by rewrite Hself1. }
    destruct (_animatedPropsCallback s2) as [[[]|err] s3]; cbn [fst snd] in *;
      [|discriminate].
    destruct (Hrest s3) as (Hself & evs & Htr & Hevs).
    split; [by rewrite Hself, Hself2|].
    exists ([e] ++ evs). rewrite Htr, Htr2. subst s2. cbn [env]. rewrite Henv1.
    split; [by rewrite <- app_assoc|].
    unfold callback_calls. rewrite List.filter_app. cbn [List.filter]. rewrite He.
    fold (callback_calls evs). by rewrite callback_calls_quiet.
Qed.


(** ** Publishing view descriptors *)





(** ** The event binding differ *)

Lemma assoc_get_keys (key : string) (fields : list (string * value)) (v : value) :
  assoc_get key fields = Some v → key ∈ keys fields.
Proof.
  unfold keys. induction fields as [|[k w] rest IH]; cbn [assoc_get]; [done|].
  case_bool_decide as Hk.
  - intros _. subst k. cbn. apply list_elem_of_here.
  - intros Hrest. cbn. apply list_elem_of_further. by apply IH.
Qed.

Lemma is_class_get_field_keys (c : NodeClass) (key : string) (current : Props) :
  is_class c (get_field key current) = true → key ∈ keys current.
Proof.
  unfold get_field. destruct (assoc_get key current) as [v|] eqn:Hget; [|done].
  intros _. by apply assoc_get_keys in Hget.
Qed.

Lemma nextEvts_fold_mono (current : Props) (ks : list string) (acc : gset N) (x : N) :
  x ∈ acc →
  x ∈ foldl (λ acc key,
         let prop := get_field key current in
         if is_class AnimatedEvent prop then acc ∪ {[nodeID_of prop]} else acc)
       acc ks.
Proof.
  revert acc. induction ks as [|k ks IH]; intros acc Hx; cbn [foldl]; [done|].
  apply IH. cbv zeta. destruct (is_class _ _); [|done].
  apply elem_of_union. by left.
Qed.

Lemma nextEvts_fold_elem (current : Props) (ks : list string) (acc : gset N)
    (key : string) :
  key ∈ ks →
  is_class AnimatedEvent (get_field key current) = true →
  nodeID_of (get_field key current)
  ∈ foldl (λ acc key,
         let prop := get_field key current in
         if is_class AnimatedEvent prop then acc ∪ {[nodeID_of prop]} else acc)
       acc ks.
Proof.
  revert acc. induction ks as [|k ks IH]; intros acc Hin Hev; [by apply elem_of_nil in Hin|].
  apply elem_of_cons in Hin as [->|Hin]; cbn [foldl].
  - apply nextEvts_fold_mono. cbv zeta. rewrite Hev.
    apply elem_of_union. right. by apply elem_of_singleton.
  - by apply IH.
Qed.

(** Every event of the current props is in [nextEvts]. *)
Lemma nextEvts_of_current (current : Props) (key : string) :
  is_class AnimatedEvent (get_field key current) = true →
  nodeID_of (get_field key current) ∈ nextEvts_of current.
Proof.
  intros Hev. unfold nextEvts_of. apply nextEvts_fold_elem; [|done].
  by apply is_class_get_field_keys in Hev.
Qed.

(** The second loop reads [this.props[key]], not [prevProps[key]]: what it
    looks up in [nextEvts] is always there, and the branch that detaches is
    never taken. *)
Lemma reattachNativeEvents_never_detaches (prevProps : Props) :
  confined (λ e, negb (is_detachEvent e)) (_reattachNativeEvents prevProps).
Proof.
  unfold _reattachNativeEvents.
  apply confined_bind; [apply confined_getEventViewRef|intros node].
  apply confined_bind; [apply confined_this|intros this]. cbv zeta.
  apply confined_bind.
  - apply confined_for_in_acc. intros attached key.
    destruct (is_class AnimatedEvent (get_field key (props this))) eqn:Hev.
    + rewrite bool_decide_eq_true_2 by (by apply nextEvts_of_current).
      cbn [negb]. apply confined_ret.
    + repeat confined_step.
  - intros attached. repeat confined_step.
Qed.

(** C1: with [{onScroll: handlerA}] before and [{onScroll: handlerB}] now,
    two events of different identity, [_reattachNativeEvents] makes no
    call at all: [handlerA] is not detached and [handlerB] is not
    attached. *)
Theorem reattachNativeEvents_replaced_event_no_call :
  let s := mounted_instance [("onScroll", handlerB)] in
  nodeID_of handlerA ≠ nodeID_of handlerB
  ∧ (_reattachNativeEvents [("onScroll", handlerA)] s).1 = Ok ()
  ∧ trace (env (_reattachNativeEvents [("onScroll", handlerA)] s).2) = [].
Proof. cbv zeta. split; [done|]. split; vm_compute; reflexivity. Qed.


(** ** The static prop projection: outcome and effects *)










Section PushesOnly.
Context (i : N) (L : loc → Prop).






End PushesOnly.








(** ** The static prop projection: starting values *)

Lemma assoc_get_obj_set_eq (key : string) (v : value) (fields : list (string * value)) :
  assoc_get key (obj_set key v fields) = Some v.
Proof.
  induction fields as [|[k w] rest IH]; cbn [obj_set assoc_get].
  - by rewrite bool_decide_eq_true_2.
  - case_bool_decide as Hk; cbn [assoc_get].
    + by rewrite bool_decide_eq_true_2.
    + by rewrite bool_decide_eq_false_2.
Qed.

Lemma assoc_get_obj_set_ne (key key' : string) (v : value)
    (fields : list (string * value)) :
  key ≠ key' → assoc_get key (obj_set key' v fields) = assoc_get key fields.
Proof.
  intros Hne. induction fields as [|[k w] rest IH]; cbn [obj_set assoc_get].
  - by rewrite bool_decide_eq_false_2.
  - case_bool_decide as Hk; cbn [assoc_get].
    + subst k. by rewrite !bool_decide_eq_false_2.
    + by rewrite IH.
Qed.

Lemma assoc_get_foldl_obj_set_other (key : string) (g : string → value)
    (ks : list string) (acc : list (string * value)) :
  key ∉ ks →
  assoc_get key (foldl (λ props k, obj_set k (g k) props) acc ks) = assoc_get key acc.
Proof.
  revert acc. induction ks as [|k ks IH]; intros acc Hnot; cbn [foldl]; [done|].
  apply not_elem_of_cons in Hnot as [Hne Hnot].
  rewrite IH by done. by apply assoc_get_obj_set_ne.
Qed.





Lemma get_field_of_assoc_get (key : string) (fields : list (string * value)) (v : value) :
  assoc_get key fields = Some v → get_field key fields = v.
Proof. unfold get_field. by intros ->. Qed.

Lemma project_default_other (x : value) (acc acc' : Props) (key key' : string)
    (s s' : State) :
  key' ≠ key →
  ((if negb (is_AnimatedNode x) then mret (obj_set key' x acc)
    else
      match x with
      | VNode AnimatedValue _ start => mret (obj_set key' start acc)
      | _ => mret acc
      end) : M Props) s = (Ok acc', s') →
  assoc_get key acc' = assoc_get key acc.
Proof.
  intros Hne. destruct (negb (is_AnimatedNode x)).
  - intros [= <- <-]. by apply assoc_get_obj_set_ne.
  - destruct x as [| | | | | | | |c id start| |]; try (by intros [= <- <-]).
    destruct c; intros [= <- <-]; try done. by apply assoc_get_obj_set_ne.
Qed.

(** What a key other than [key] does to the binding of [key]. *)
Lemma project_prop_other (inputProps : Props) (this : Instance) (acc acc' : Props)
    (key key' : string) (s s' : State) :
  key' ≠ key →
  key ∉ spliced_by key' (get_field key' inputProps) →
  project_prop inputProps this acc key' s = (Ok acc', s') →
  assoc_get key acc' = assoc_get key acc.
Proof.
  intros Hne. unfold project_prop, spliced_by. cbv zeta.
  case_bool_decide as Hstyle.
  { intros _. unfold mbind, M_bind.
    destruct (map_M _ _ s) as [[xs|e] s1]; [|discriminate].
    intros [= <- <-]. by apply assoc_get_obj_set_ne. }
  case_bool_decide as Hanim.
  { destruct (own_entries (get_prop "initial" (get_field key' inputProps)))
      as [entries|].
    - intros Hnot.
      destruct (get_field key' inputProps); try discriminate;
        intros [= <- <-]; by apply assoc_get_foldl_obj_set_other.
    - intros _. destruct (get_field key' inputProps); discriminate. }
  destruct (is_class AnimatedEvent (get_field key' inputProps)).
  { intros _ [= <- <-]. by apply assoc_get_obj_set_ne. }
  destruct (get_prop "current" (get_field key' inputProps)) eqn:Hcur;
    try (intros _; by apply (project_default_other (get_field key' inputProps))).
  intros Hnot. case_bool_decide.
  - intros [= <- <-].
    apply (assoc_get_foldl_obj_set_other key
             (λ eventName, match listeners with
                           | Some ls => get_field eventName ls
                           | None => dummyListener
                           end)).
    done.
  - intros [= <- <-]. by apply assoc_get_obj_set_ne.
Qed.


(** The binding of [key] after the loop, when [key] itself writes [w]. *)
Lemma project_loop (inputProps : Props) (this : Instance) (key : string) (w : value) :
  (∀ acc s, project_prop inputProps this acc key s = (Ok (obj_set key w acc), s)) →
  ∀ ks acc s out s',
    (∀ key', key' ∈ ks → key ∉ spliced_by key' (get_field key' inputProps)) →
    for_in_acc ks acc (project_prop inputProps this) s = (Ok out, s') →
    assoc_get key out = if decide (key ∈ ks) then Some w else assoc_get key acc.
Proof.
  intros Hown ks. induction ks as [|k ks IH]; intros acc s out s' Hsplice; cbn [for_in_acc].
  - intros [= <- <-]. by rewrite decide_False by apply not_elem_of_nil.
  - unfold mbind, M_bind.
    destruct (project_prop inputProps this acc k s) as [[acc1|e] s1] eqn:Hk;
      [|discriminate].
    intros Hrest. apply IH in Hrest.
    2:{ intros key' Hin. apply Hsplice. by apply list_elem_of_further. }
    rewrite Hrest. destruct (decide (key = k)) as [<-|Hne].
    + rewrite (decide_True (P := key ∈ key :: ks)) by apply list_elem_of_here.
      destruct (decide (key ∈ ks)); [done|].
      rewrite Hown in Hk. injection Hk as <- <-. apply assoc_get_obj_set_eq.
    + assert (Hacc1 : assoc_get key acc1 = assoc_get key acc).
      { eapply project_prop_other; [| |exact Hk]; [done|].
        apply Hsplice, list_elem_of_here. }
      rewrite Hacc1. destruct (decide (key ∈ ks)) as [Hin|Hnin].
      * by rewrite decide_True by (by apply list_elem_of_further).
      * rewrite decide_False; [done|].
        intros [?|?]%elem_of_cons; contradiction.
Qed.


Lemma project_prop_pass_through (inputProps : Props) (this : Instance)
    (key : string) (acc : Props) (s : State) :
  is_AnimatedNode (get_field key inputProps) = false →
  is_handler_ref (get_field key inputProps) = false →
  key ≠ "style" → key ≠ "animatedProps" →
  project_prop inputProps this acc key s
  = (Ok (obj_set key (get_field key inputProps) acc), s).
Proof.
  intros Hnode Href Hstyle Hanim. unfold project_prop. cbv zeta.
  rewrite !bool_decide_eq_false_2 by done.
  assert (Hev : is_class AnimatedEvent (get_field key inputProps) = false).
  { by destruct (get_field key inputProps). }
  rewrite Hev, Hnode. unfold is_handler_ref in Href.
  by destruct (get_prop "current" (get_field key inputProps)).
Qed.

Lemma not_spliced (current : Props) (key key' : string) :
  key ∉ spliced_keys current → key' ∈ keys current →
  key ∉ spliced_by key' (get_field key' current).
Proof.
  intros Hnot Hin Hsp. apply Hnot. unfold spliced_keys.
  apply list_elem_of_In, in_flat_map. exists key'.
  split; by apply list_elem_of_In.
Qed.




End Properties.

(** * The properties on concrete inputs *)

Example flattenArray_nested :
  flattenArray (VArr [VNum 1; VArr [VNull; VArr [VNum 2]]; VUndefined])
  = VArr [VNum 1; VNull; VNum 2; VUndefined].
Proof. reflexivity. Qed.

(** Scenario D on the native host: the rendered style of a component
    constructed with an animated value bound directly to [opacity]. *)
Example scenario_D_direct_style :
  (@render native_host (unmounted_instance [("style", direct_style)])).1
  = Ok [("style", VObj [("opacity", VNum 5)]); ("collapsable", VBool false)].
Proof. vm_compute. reflexivity. Qed.

(** Scenario B: the same event before and after gives no call. *)
Example scenario_B_same_event :
  trace (env (_reattachNativeEvents [("onScroll", handlerA)]
                (mounted_instance [("onScroll", handlerA)])).2) = [].
Proof. vm_compute. reflexivity. Qed.

(** An event that is dropped from the props is not detached either. *)
Example dropped_event_not_detached :
  trace (env (_reattachNativeEvents [("onScroll", handlerA)] (mounted_instance [])).2)
  = [].
Proof. vm_compute. reflexivity. Qed.

Lemma createAnimatedComponent_rejects_function_components_witness :
  createAnimatedComponent arrow_component
  = Throw (InvariantViolation
      "`createAnimatedComponent` does not support stateless functional components; use a class component instead.")
  ∧ createAnimatedComponent class_component = Ok ().
Proof.
  split.
  - exact (proj1 (createAnimatedComponent_rejects_function_components
                    arrow_component eq_refl) eq_refl).
  - exact (proj2 (createAnimatedComponent_rejects_function_components
                    class_component eq_refl) eq_refl).
Defined.

Lemma attachProps_installs_before_detach_witness :
  trace (env (@_attachProps native_host [] (mounted_instance [])).2)
  = [EvCreateOrReusePropsNode 10 [] (Some 1%N); EvInstallPropsNode 10 (Some 1%N)]
  ∧ trace (env (@_attachProps native_host [("opacity", VNum 1)] (mounted_instance [])).2)
    = [EvCreateOrReusePropsNode 10 [("opacity", VNum 1)] (Some 1%N);
       EvInstallPropsNode 10 (Some 2%N); EvDetachPropsNode 1%N].
Proof.
  split.
  - exact (proj1 (proj2 (proj2
             (@attachProps_installs_before_detach native_host (mounted_instance []) [])))
             eq_refl).
  - refine (proj2 (proj2 (proj2 (proj2
             (@attachProps_installs_before_detach native_host (mounted_instance [])
                [("opacity", VNum 1)])))) 1%N eq_refl _).
    discriminate.
Defined.







Lemma premature_callback_replayed_once_witness :
  let s := unmounted_instance [] in
  let fired := (@fire native_host 3 s).2 in
  let mounted :=
    (@componentDidMount native_host (setLocalRef (Some (native_view 20)) fired).2).2 in
  _invokeAnimatedPropsCallbackOnMount (self fired) = true
  ∧ _invokeAnimatedPropsCallbackOnMount (self mounted) = false
  ∧ ∃ evs, trace (env mounted) = trace (env s) ++ evs
           ∧ length (callback_calls evs) = 1.
Proof.
  pose proof (@premature_callback_replayed_once native_host (unmounted_instance []) 3
                (native_view 20) eq_refl eq_refl (λ _, ex_intro _ 1%N eq_refl))
    as (_ & _ & Hflag & Hdown & Hcalls).
  cbv zeta. split; [exact Hflag|]. split; [exact Hdown|]. exact Hcalls.
Defined.



Lemma detachPropUpdater_removes_every_listener_witness :
  let s := mkState (new_instance 10 []) last_entry_env in
  listeners_of channel (emitter (env s)) = [ModuleListener; OtherListener 5]
  ∧ listeners_of channel (emitter (env (@_detachPropUpdater native_host s).2)) = [].
Proof.
  cbv zeta. split; [reflexivity|].
  exact (proj1 (proj2 (proj2
           (@detachPropUpdater_removes_every_listener native_host
              (mkState (new_instance 10 []) last_entry_env) 10%N eq_refl)))).
Defined.

Lemma listener_without_setNativeProps_discards_witness :
  listener (Some 10%N) (VObj [("opacity", VNum 0)]) composite_world
  = (Ok (), composite_world).
Proof.
  exact (listener_without_setNativeProps_discards composite_world (Some 10%N)
           (VObj [("opacity", VNum 0)]) 10%N
           (mkInstance 10 [] (Some (composite_view 20)) (Some 1%N) false)
           (composite_view 20) eq_refl eq_refl eq_refl eq_refl).
Defined.

(** * Further properties of the file *)

Section Further.
Context {host : Host}.

(** ** [flattenArray] *)

Lemma flattenArray_item_flat (v : value) :
  Forall (λ x, isArray x = false) (_flattenArray_item v).
Proof.
  revert v. fix IH 1. intros v.
  destruct v; try (constructor; [reflexivity | constructor]).
  cbn [_flattenArray_item].
  induction items as [|x xs IHxs]; cbn [flat_map]; [constructor|].
  apply Forall_app. split; [apply IH | apply IHxs].
Qed.

Lemma flattenArray_items_flat (items : list value) :
  Forall (λ x, isArray x = false) (_flattenArray items).
Proof.
  unfold _flattenArray. induction items as [|x xs IH]; cbn [flat_map]; [constructor|].
  apply Forall_app. split; [apply flattenArray_item_flat | apply IH].
Qed.

Lemma flattenArray_flat_id (items : list value) :
  Forall (λ x, isArray x = false) items → _flattenArray items = items.
Proof.
  unfold _flattenArray. induction 1 as [|x xs Hx _ IH]; cbn [flat_map]; [done|].
  rewrite IH. by destruct x.
Qed.

(** X1: what [flattenArray] makes of an array holds no array any more,
    however deep the nesting was, and flattening it again changes
    nothing; a value that is not an array is returned as it is. *)
Theorem flattenArray_flat_and_idempotent (array : value) :
  (∀ items, flattenArray array = VArr items → Forall (λ x, isArray x = false) items)
  ∧ flattenArray (flattenArray array) = flattenArray array
  ∧ (isArray array = false → flattenArray array = array).
Proof.
  split; [|split].
  - intros items. destruct array; try discriminate.
    cbn [flattenArray]. intros [= <-]. apply flattenArray_items_flat.
  - destruct array; try reflexivity. cbn [flattenArray].
    by rewrite flattenArray_flat_id by apply flattenArray_items_flat.
  - by destruct array.
Qed.

Lemma hasAnimatedNodes_flattenArray_item (v : value) :
  existsb hasAnimatedNodes (_flattenArray_item v) = hasAnimatedNodes v.
Proof.
  revert v. fix IH 1. intros v.
  destruct v; try (cbn [_flattenArray_item existsb]; apply orb_false_r).
  cbn [_flattenArray_item hasAnimatedNodes].
  induction items as [|x xs IHxs]; cbn [flat_map existsb]; [done|].
  by rewrite existsb_app, IH, IHxs.
Qed.

(** X2: flattening neither loses nor invents animated nodes:
    [hasAnimatedNodes] answers the same before and after [flattenArray]. *)
Theorem hasAnimatedNodes_flattenArray (array : value) :
  hasAnimatedNodes (flattenArray array) = hasAnimatedNodes array.
Proof.
  destruct array; try reflexivity. cbn [flattenArray hasAnimatedNodes].
  unfold _flattenArray.
  induction items as [|x xs IH]; cbn [flat_map existsb]; [done|].
  by rewrite existsb_app, hasAnimatedNodes_flattenArray_item, IH.
Qed.

(** ** Tools: traces and sequencing *)

Lemma add_trace_nil (s : State) : add_trace [] s = s.
Proof. destruct s as [i []]. unfold add_trace. cbn. by rewrite app_nil_r. Qed.

Lemma add_trace_app (evs evs' : list Event) (s : State) :
  add_trace evs' (add_trace evs s) = add_trace (evs ++ evs') s.
Proof. unfold add_trace. cbn. by rewrite app_assoc. Qed.

Lemma emit_add_trace (e : Event) (s : State) : emit e s = (Ok (), add_trace [e] s).
Proof. reflexivity. Qed.

Lemma bind_Ok {A B : Type} (m : M A) (f : A → M B) (s s1 : State) (a : A) :
  m s = (Ok a, s1) → (m ≫= f) s = f a s1.
Proof. intros Hm. unfold mbind, M_bind. by rewrite Hm. Qed.

Lemma bind_Throw {A B : Type} (m : M A) (f : A → M B) (s s1 : State) (e : Error) :
  m s = (Throw e, s1) → (m ≫= f) s = (Throw e, s1).
Proof. intros Hm. unfold mbind, M_bind. by rewrite Hm. Qed.

Lemma bind_inv_Ok {A B : Type} (m : M A) (f : A → M B) (s s' : State) (b : B) :
  (m ≫= f) s = (Ok b, s') → ∃ a s1, m s = (Ok a, s1) ∧ f a s1 = (Ok b, s').
Proof.
  unfold mbind, M_bind. destruct (m s) as [[a|e] s1]; [|discriminate].
  intros Hf. by exists a, s1.
Qed.

(** A loop whose body only makes calls that depend on the key. *)
Lemma for_in_calls (g : string → list Event) (ks : list string)
    (body : string → M unit) (s : State) :
  (∀ key s0, body key s0 = (Ok (), add_trace (g key) s0)) →
  for_in ks body s = (Ok (), add_trace (flat_map g ks) s).
Proof.
  intros Hbody. revert s. induction ks as [|key ks IH]; intros s; cbn [for_in flat_map].
  - by rewrite add_trace_nil.
  - rewrite (bind_Ok _ _ _ _ _ (Hbody key s)). by rewrite IH, add_trace_app.
Qed.

Lemma getEventViewRef_mounted (s : State) (c : Component) :
  _component (self s) = Some c →
  _getEventViewRef s
  = (Ok (match getScrollableNode c with
         | Some n => TNode n
         | None => TComponent (cid c)
         end), s).
Proof.
  intros Hc. unfold _getEventViewRef. unfold_M. rewrite Hc.
  by destruct (getScrollableNode c).
Qed.

Lemma getEventViewRef_unmounted (s : State) :
  _component (self s) = None →
  _getEventViewRef s = (Throw (TypeError "this._component.getScrollableNode"), s).
Proof. intros Hc. unfold _getEventViewRef. unfold_M. by rewrite Hc. Qed.

(** ** Native events at mount and unmount *)

(** X3: on an instance with a component, [_detachNativeEvents] undoes
    [_attachNativeEvents] call for call: the two make their calls for the
    same props in the same order, a [detachEvent] where the other made an
    [attachEvent] on the same node, view and key, an [unregisterFromEvents]
    where the other made a [registerForEvents] on the same handler, and
    neither does anything else. *)
Theorem detachNativeEvents_mirrors_attach (s : State) (c : Component) :
  _component (self s) = Some c →
  ∃ evs,
    _attachNativeEvents s = (Ok (), add_trace evs s)
    ∧ _detachNativeEvents s = (Ok (), add_trace (undo_call <$> evs) s)
    ∧ Forall (λ e, is_mount_call e = true) evs.
Proof.
  intros Hc.
  set (node := match getScrollableNode c with
               | Some n => TNode n
               | None => TComponent (cid c)
               end).
  set (g := λ key,
         let prop := get_field key (props (self s)) in
         if is_class AnimatedEvent prop then [EvAttachEvent (nodeID_of prop) node key]
         else match get_prop "current" prop with
              | VHandler l _ _ _ => [EvRegisterForEvents l (Some (findNodeHandle node)) key]
              | _ => []
              end).
  exists (flat_map g (keys (props (self s)))).
  split; [|split].
  - unfold _attachNativeEvents.
    rewrite (bind_Ok _ _ _ _ _ (getEventViewRef_mounted s c Hc)).
    fold node. cbv zeta. unfold mbind at 1, M_bind at 1, this_ at 1. cbv beta iota.
    apply for_in_calls. intros key s0. subst g. cbv beta zeta.
    destruct (is_class AnimatedEvent _); [apply emit_add_trace|].
    destruct (get_prop "current" _); try (by rewrite add_trace_nil).
    apply emit_add_trace.
  - unfold _detachNativeEvents.
    rewrite (bind_Ok _ _ _ _ _ (getEventViewRef_mounted s c Hc)).
    fold node. unfold mbind at 1, M_bind at 1, this_ at 1. cbv beta iota.
    rewrite (for_in_calls (λ key, undo_call <$> g key)).
    + f_equal. f_equal.
      induction (keys (props (self s))) as [|key ks IH]; cbn [flat_map]; [done|].
      by rewrite fmap_app, IH.
    + intros key s0. subst g. cbv beta zeta.
      destruct (is_class AnimatedEvent _); [apply emit_add_trace|].
      destruct (get_prop "current" _); try (by rewrite add_trace_nil).
      apply emit_add_trace.
  - induction (keys (props (self s))) as [|key ks IH]; cbn [flat_map]; [constructor|].
    apply Forall_app. split; [|exact IH]. subst g. cbv beta zeta.
    destruct (is_class AnimatedEvent _); [by repeat constructor|].
    destruct (get_prop "current" _); by repeat constructor.
Qed.

(** ** The registry and the native notification path together *)

Lemma attachPropUpdater_Ok (s : State) :
  _attachPropUpdater s
  = (Ok (), mkState (self s) (registry_step (Register (self s)) (env s))).
Proof.
  unfold registry_step, _attachPropUpdater, addListener. unfold_M.
  cbn [self env]. by destruct (bool_decide _).
Qed.

Lemma detachPropUpdater_Ok (s : State) :
  _detachPropUpdater s
  = (Ok (), mkState (self s) (registry_step (Unregister (self s)) (env s))).
Proof.
  unfold registry_step, _detachPropUpdater, removeAllListeners. unfold_M.
  cbn [self env]. by destruct (bool_decide _).
Qed.

(** X4: once an instance has run [_attachPropUpdater], a notification that
    carries its view tag reaches that instance: when its component has
    [setNativeProps] the listener passes the patch to it, in one call, and
    changes nothing else. *)
Theorem registered_instance_receives_notification (w : World) (this : Instance)
    (c : Component) (patch : value) :
  instances w !! iid this = Some this →
  _component this = Some c →
  setNativeProps c = true →
  let registered := registry_step (Register this) (shared w) in
  listener (findNodeHandle (TInstance (iid this))) patch
    (mkWorld (instances w) registered)
  = (Ok (),
     mkWorld (instances w)
       (env (add_trace [EvSetNativeProps (cid c) patch] (mkState this registered)))).
Proof.
  intros Hinst Hc Hset registered. unfold listener. cbn [shared instances].
  subst registered. rewrite NODE_MAPPING_register, lookup_insert_eq, Hinst.
  unfold _updateFromNative. unfold_M. cbn [self]. rewrite Hc, Hset.
  cbn [self env]. by rewrite insert_id.
Qed.

(** X5: once an instance has run [_detachPropUpdater], a notification that
    carries its view tag is dropped: the listener returns normally and the
    world is as it was. *)
Theorem unregistered_instance_drops_notification (w : World) (this : Instance)
    (patch : value) :
  let unregistered := registry_step (Unregister this) (shared w) in
  listener (findNodeHandle (TInstance (iid this))) patch
    (mkWorld (instances w) unregistered)
  = (Ok (), mkWorld (instances w) unregistered).
Proof.
  intros unregistered. unfold listener. cbn [shared instances].
  subst unregistered. by rewrite NODE_MAPPING_unregister, lookup_delete_eq.
Qed.

(** X6: registering an instance whose view tag is not in the registry and
    unregistering it again gives back the registry as it was; when the
    registry was empty the notification channel ends up with no listener,
    and the two operations make one subscribe call and one unsubscribe
    call. *)
Theorem register_unregister_round_trip (this : Instance) (v : Env) :
  NODE_MAPPING v !! findNodeHandle (TInstance (iid this)) = None →
  let v' := registry_run [Register this; Unregister this] v in
  NODE_MAPPING v' = NODE_MAPPING v
  ∧ (NODE_MAPPING v = ∅ →
     listeners_of channel (emitter v') = []
     ∧ trace v' = trace v ++ [subscribe_call; unsubscribe_call]).
Proof.
  intros Hfresh v'. subst v'. unfold registry_run. cbn [foldl].
  set (v1 := registry_step (Register this) v).
  assert (Hmap : NODE_MAPPING (registry_step (Unregister this) v1) = NODE_MAPPING v).
  { rewrite NODE_MAPPING_unregister. subst v1. rewrite NODE_MAPPING_register.
    rewrite delete_insert_eq. by apply delete_id. }
  split; [done|]. intros Hempty.
  assert (Hone : size (NODE_MAPPING v1) = 1).
  { subst v1. rewrite NODE_MAPPING_register, Hempty, insert_empty.
    apply map_size_singleton. }
  assert (Hzero : size (NODE_MAPPING (registry_step (Unregister this) v1)) = 0).
  { rewrite Hmap, Hempty. apply map_size_empty. }
  split.
  - rewrite emitter_unregister, Hzero. rewrite bool_decide_eq_true_2 by done.
    unfold listeners_of. by rewrite lookup_delete_eq.
  - rewrite trace_unregister, Hzero. rewrite bool_decide_eq_true_2 by done.
    subst v1. rewrite trace_register.
    fold (registry_step (Register this) v) in Hone. rewrite Hone.
    rewrite bool_decide_eq_true_2 by done. by rewrite <- app_assoc.
Qed.

(** ** Tools: what a computation keeps, and that it returns *)

Lemma keeps_ret {A X : Type} (f : State → X) (a : A) : keeps f (mret a).
Proof. done. Qed.

Lemma keeps_throw {A X : Type} (f : State → X) (e : Error) : keeps f (throw e : M A).
Proof. done. Qed.

Lemma keeps_bind {A B X : Type} (f : State → X) (m : M A) (k : A → M B) :
  keeps f m → (∀ a, keeps f (k a)) → keeps f (m ≫= k).
Proof.
  intros Hm Hk s. unfold mbind, M_bind. specialize (Hm s).
  destruct (m s) as [[a|e] s1]; cbn [snd] in *; [|done].
  by rewrite Hk.
Qed.

Lemma keeps_for_in {X : Type} (f : State → X) (ks : list string)
    (body : string → M unit) :
  (∀ key, keeps f (body key)) → keeps f (for_in ks body).
Proof.
  intros Hbody. induction ks as [|key ks IH]; cbn [for_in]; [apply keeps_ret|].
  apply keeps_bind; [apply Hbody | intros _; apply IH].
Qed.

Lemma keeps_for_each {A X : Type} (f : State → X) (items : list A)
    (body : A → M unit) :
  (∀ item, keeps f (body item)) → keeps f (for_each items body).
Proof.
  intros Hbody. induction items as [|item items IH]; cbn [for_each]; [apply keeps_ret|].
  apply keeps_bind; [apply Hbody | intros _; apply IH].
Qed.

Lemma keeps_for_in_acc {A X : Type} (f : State → X) (ks : list string) (acc : A)
    (body : A → string → M A) :
  (∀ acc key, keeps f (body acc key)) → keeps f (for_in_acc ks acc body).
Proof.
  intros Hbody. revert acc. induction ks as [|key ks IH]; intros acc; cbn [for_in_acc];
    [apply keeps_ret|].
  apply keeps_bind; [apply Hbody | intros acc'; apply IH].
Qed.

Lemma keeps_map_M {A B X : Type} (f : State → X) (items : list A) (body : A → M B) :
  (∀ item, keeps f (body item)) → keeps f (map_M items body).
Proof.
  intros Hbody. induction items as [|item items IH]; cbn [map_M]; [apply keeps_ret|].
  apply keeps_bind; [apply Hbody | intros x].
  apply keeps_bind; [apply IH | intros xs; apply keeps_ret].
Qed.

(** Breaks [keeps] down along the computation; primitive steps are settled
    by computation. *)
Ltac keeps_step :=
  match goal with
  | |- keeps _ (mbind _ _) => apply keeps_bind; [|intros ?]
  | |- keeps _ (mret _) => apply keeps_ret
  | |- keeps _ (throw _) => apply keeps_throw
  | |- keeps _ this_ => intros ?; reflexivity
  | |- keeps _ env_ => intros ?; reflexivity
  | |- keeps _ (emit _) => intros ?; reflexivity
  | |- keeps _ (set_env _) => intros ?; reflexivity
  | |- keeps _ (set_self _) => intros ?; reflexivity
  | |- keeps _ (for_in _ _) => apply keeps_for_in; intros ?
  | |- keeps _ (for_each _ _) => apply keeps_for_each; intros ?
  | |- keeps _ (for_in_acc _ _ _) => apply keeps_for_in_acc; intros ? ?
  | |- keeps _ (map_M _ _) => apply keeps_map_M; intros ?
  | |- keeps _ (if ?b then _ else _) => destruct b
  | |- keeps _ (match ?x with _ => _ end) => destruct x
  | |- keeps _ (let _ := _ in _) => cbv zeta
  end.

Lemma succeeds_ret {A : Type} (a : A) : succeeds (mret a).
Proof. intros s. by exists a. Qed.

Lemma succeeds_bind {A B : Type} (m : M A) (k : A → M B) :
  succeeds m → (∀ a, succeeds (k a)) → succeeds (m ≫= k).
Proof.
  intros Hm Hk s. unfold mbind, M_bind. destruct (Hm s) as [a Ha].
  destruct (m s) as [[a'|e] s1]; cbn [fst] in Ha; [|discriminate].
  apply Hk.
Qed.

Lemma succeeds_for_in (ks : list string) (body : string → M unit) :
  (∀ key, succeeds (body key)) → succeeds (for_in ks body).
Proof.
  intros Hbody. induction ks as [|key ks IH]; cbn [for_in]; [apply succeeds_ret|].
  apply succeeds_bind; [apply Hbody | intros _; apply IH].
Qed.

Lemma succeeds_for_in_acc {A : Type} (ks : list string) (acc : A)
    (body : A → string → M A) :
  (∀ acc key, succeeds (body acc key)) → succeeds (for_in_acc ks acc body).
Proof.
  intros Hbody. revert acc. induction ks as [|key ks IH]; intros acc; cbn [for_in_acc];
    [apply succeeds_ret|].
  apply succeeds_bind; [apply Hbody | intros acc'; apply IH].
Qed.

Ltac succeeds_step :=
  match goal with
  | |- succeeds (mbind _ _) => apply succeeds_bind; [|intros ?]
  | |- succeeds (mret _) => apply succeeds_ret
  | |- succeeds this_ => intros ?; eexists; reflexivity
  | |- succeeds env_ => intros ?; eexists; reflexivity
  | |- succeeds (emit _) => intros ?; eexists; reflexivity
  | |- succeeds (set_env _) => intros ?; eexists; reflexivity
  | |- succeeds (set_self _) => intros ?; eexists; reflexivity
  | |- succeeds (for_in _ _) => apply succeeds_for_in; intros ?
  | |- succeeds (for_in_acc _ _ _) => apply succeeds_for_in_acc; intros ? ?
  | |- succeeds (if ?b then _ else _) => destruct b
  | |- succeeds (match ?x with _ => _ end) => destruct x
  | |- succeeds (let _ := _ in _) => cbv zeta
  end.

Lemma for_in_acc_pure {A : Type} (g : A → string → A) (ks : list string) (acc : A)
    (body : A → string → M A) (s : State) :
  (∀ acc key, key ∈ ks → body acc key s = (Ok (g acc key), s)) →
  for_in_acc ks acc body s = (Ok (foldl g acc ks), s).
Proof.
  revert acc. induction ks as [|key ks IH]; intros acc Hbody; cbn [for_in_acc foldl];
    [done|].
  rewrite (bind_Ok _ _ _ _ _ (Hbody acc key (list_elem_of_here _ _))).
  apply IH. intros acc' key' Hin. apply Hbody. by apply list_elem_of_further.
Qed.

Lemma for_in_skip (ks : list string) (body : string → M unit) (s : State) :
  (∀ key, key ∈ ks → body key s = (Ok (), s)) →
  for_in ks body s = (Ok (), s).
Proof.
  induction ks as [|key ks IH]; intros Hbody; cbn [for_in]; [done|].
  rewrite (bind_Ok _ _ _ _ _ (Hbody key (list_elem_of_here _ _))).
  apply IH. intros key' Hin. apply Hbody. by apply list_elem_of_further.
Qed.

(** ** The event binding differ on updates *)

(** X7: when every key of the current props was already a key of the
    previous props and no handler bound in the current props asks to be
    reattached, [_reattachNativeEvents] makes no call and leaves the state
    as it is, whatever the events under those keys are. *)
Theorem reattachNativeEvents_same_keys_no_call (s : State) (prevProps : Props)
    (c : Component) :
  _component (self s) = Some c →
  (∀ key, key ∈ keys (props (self s)) → key ∈ keys prevProps) →
  (∀ key l names ls t,
     get_prop "current" (get_field key (props (self s))) = VHandler l names ls t →
     l ∉ reattachNeeded (env s)) →
  _reattachNativeEvents prevProps s = (Ok (), s).
Proof.
  intros Hc Hkeys Hflags. unfold _reattachNativeEvents.
  rewrite (bind_Ok _ _ _ _ _ (getEventViewRef_mounted s c Hc)).
  unfold mbind at 1, M_bind at 1, this_ at 1. cbv beta iota zeta.
  set (current := props (self s)) in *.
  set (add := λ (acc : gset N) key,
         let prop := get_field key current in
         if is_class AnimatedEvent prop then acc ∪ {[nodeID_of prop]} else acc).
  erewrite bind_Ok; [|apply (for_in_acc_pure add)].
  - apply for_in_skip. intros key Hin.
    destruct (is_class AnimatedEvent (get_field key current)) eqn:Hev.
    + rewrite bool_decide_eq_true_2.
      * cbn [negb andb]. by destruct (get_field key current).
      * apply nextEvts_fold_elem; [by apply Hkeys | done].
    + cbn [andb].
      destruct (get_prop "current" (get_field key current)) eqn:Hcur; try done.
      unfold mbind, M_bind, env_.
      rewrite bool_decide_eq_false_2; [done|]. by eapply Hflags.
  - intros acc key _. subst add. cbv beta zeta.
    destruct (is_class AnimatedEvent (get_field key current)) eqn:Hev.
    + rewrite bool_decide_eq_true_2 by (by apply nextEvts_of_current). done.
    + destruct (get_prop "current" (get_field key current)) eqn:Hcur; try done.
      unfold mbind, M_bind, env_.
      rewrite bool_decide_eq_false_2; [done|]. by eapply Hflags.
Qed.

(** A loop that only ever lowers [reattachNeeded] flags, and lowers the
    flag of the handler [h key] when it passes [key]. *)
Lemma for_in_lowers_flags (h : string → option loc) (ks : list string)
    (body : string → M unit) (s : State) :
  (∀ key s0, ∃ s1,
     body key s0 = (Ok (), s1)
     ∧ reattachNeeded (env s1) ⊆ reattachNeeded (env s0)
     ∧ ∀ l, h key = Some l → l ∉ reattachNeeded (env s1)) →
  ∃ s', for_in ks body s = (Ok (), s')
        ∧ reattachNeeded (env s') ⊆ reattachNeeded (env s)
        ∧ ∀ key l, key ∈ ks → h key = Some l → l ∉ reattachNeeded (env s').
Proof.
  intros Hbody. revert s. induction ks as [|key ks IH]; intros s; cbn [for_in].
  - exists s. split; [done|]. split; [done|]. intros key l Hin.
    by apply elem_of_nil in Hin.
  - destruct (Hbody key s) as (s1 & Hrun & Hsub & Hlow).
    destruct (IH s1) as (s' & Hrest & Hsub' & Hlow').
    exists s'. rewrite (bind_Ok _ _ _ _ _ Hrun). split; [done|].
    split; [by etrans|].
    intros key' l [->|Hin]%elem_of_cons Hh.
    + intros Hl. by apply (Hlow l Hh), Hsub'.
    + by eapply Hlow'.
Qed.

Lemma reattachNativeEvents_run (s : State) (prevProps : Props) (c : Component) :
  _component (self s) = Some c →
  ∃ s', _reattachNativeEvents prevProps s = (Ok (), s')
        ∧ reattachNeeded (env s') ⊆ reattachNeeded (env s)
        ∧ ∀ key l names ls t,
            key ∈ keys (props (self s)) →
            get_prop "current" (get_field key (props (self s))) = VHandler l names ls t →
            l ∉ reattachNeeded (env s').
Proof.
  intros Hc. unfold _reattachNativeEvents.
  rewrite (bind_Ok _ _ _ _ _ (getEventViewRef_mounted s c Hc)).
  unfold mbind at 1, M_bind at 1, this_ at 1. cbv beta iota zeta.
  set (current := props (self s)).
  match goal with
  | |- context [for_in_acc ?ks ?acc ?body ≫= ?k] =>
      set (loop2 := for_in_acc ks acc body); set (loop3 := k)
  end.
  assert (Hok2 : succeeds loop2) by (subst loop2; repeat succeeds_step).
  assert (Hkeep2 : keeps (λ s, reattachNeeded (env s)) loop2)
    by (subst loop2; repeat keeps_step).
  destruct (Hok2 s) as [attached Hrun2]. specialize (Hkeep2 s).
  destruct (loop2 s) as [r2 s2] eqn:Hloop2. cbn [fst snd] in *. subst r2.
  rewrite (bind_Ok _ _ _ _ _ Hloop2). subst loop3. cbv beta.
  set (h := λ key, match get_prop "current" (get_field key current) with
                   | VHandler l _ _ _ => Some l
                   | _ => None
                   end).
  match goal with
  | |- context [for_in ?ks ?body s2] =>
      destruct (for_in_lowers_flags h ks body s2) as (s' & Hrun3 & Hsub & Hlow)
  end.
  { intros key s0. subst h. cbv beta.
    destruct (is_class AnimatedEvent (get_field key current)) eqn:Hev.
    - assert (Hcur : get_prop "current" (get_field key current) = VUndefined)
        by (by destruct (get_field key current)).
      rewrite Hcur. destruct (negb _); cbn [andb]; eexists; (split; [reflexivity|]);
        split; done.
    - cbn [andb].
      destruct (get_prop "current" (get_field key current)) eqn:Hcur;
        try (exists s0; split; [reflexivity|]; split; done).
      unfold mbind at 1, M_bind at 1, env_ at 1. cbv beta iota.
      case_bool_decide as Hflag.
      + eexists. split; [reflexivity|]. cbn [env reattachNeeded with_reattachNeeded].
        split; [by apply subseteq_difference_l|].
        intros l' [= <-]. rewrite elem_of_difference, elem_of_singleton. tauto.
      + exists s0. split; [reflexivity|]. split; [done|]. by intros l' [= <-]. }
  exists s'. split; [done|]. split; [by rewrite <- Hkeep2|].
  intros key l names ls t Hin Hcur. apply (Hlow key l Hin).
  subst h. cbv beta. by rewrite Hcur.
Qed.

(** X8: on an instance with a component, [_reattachNativeEvents] returns
    normally, raises no [reattachNeeded] flag, and leaves no handler bound
    in the current props with its flag up. *)
Theorem reattachNativeEvents_lowers_flags (s : State) (prevProps : Props)
    (c : Component) :
  _component (self s) = Some c →
  let after := _reattachNativeEvents prevProps s in
  after.1 = Ok ()
  ∧ reattachNeeded (env after.2) ⊆ reattachNeeded (env s)
  ∧ ∀ key l names ls t,
      key ∈ keys (props (self s)) →
      get_prop "current" (get_field key (props (self s))) = VHandler l names ls t →
      l ∉ reattachNeeded (env after.2).
Proof.
  intros Hc after. subst after.
  destruct (reattachNativeEvents_run s prevProps c Hc) as (s' & -> & Hsub & Hlow).
  done.
Qed.

(** ** View descriptors over the life of an instance *)

Lemma descriptors_grow_keeps {A : Type} (m : M A) :
  keeps (λ s, viewDescriptors (env s)) m → descriptors_grow m.
Proof. intros Hm s l. by rewrite Hm. Qed.

Lemma descriptors_grow_bind {A B : Type} (m : M A) (k : A → M B) :
  descriptors_grow m → (∀ a, descriptors_grow (k a)) → descriptors_grow (m ≫= k).
Proof.
  intros Hm Hk s l. unfold mbind, M_bind. specialize (Hm s l).
  destruct (m s) as [[a|e] s1]; cbn [snd] in *; [|done].
  etrans; [exact Hm|]. apply Hk.
Qed.

Lemma descriptors_grow_add (x : value) (d : Descriptor) :
  descriptors_grow (add_descriptor_if_any x d).
Proof.
  unfold add_descriptor_if_any.
  destruct (probe_viewDescriptors x) as [l0|v].
  - intros s l. unfold viewDescriptors_add, set_env.
    cbn [snd env viewDescriptors with_viewDescriptors].
    destruct (decide (l = l0)) as [->|Hne].
    + rewrite lookup_insert_eq. by apply prefix_app_r.
    + by rewrite lookup_insert_ne.
  - apply descriptors_grow_keeps. repeat keeps_step.
Qed.

Lemma descriptors_grow_for_each (xs : list value) (d : Descriptor) :
  descriptors_grow (for_each xs (λ x, add_descriptor_if_any x d)).
Proof.
  induction xs as [|x xs IH]; cbn [for_each].
  - apply descriptors_grow_keeps, keeps_ret.
  - apply descriptors_grow_bind; [apply descriptors_grow_add | intros _; apply IH].
Qed.

Lemma descriptors_grow_attachAnimatedStyles : descriptors_grow _attachAnimatedStyles.
Proof.
  unfold _attachAnimatedStyles.
  apply descriptors_grow_bind; [apply descriptors_grow_keeps; keeps_step|intros this].
  cbv zeta. apply descriptors_grow_bind.
  - apply descriptors_grow_keeps. repeat keeps_step.
  - intros d. apply descriptors_grow_bind; [apply descriptors_grow_for_each|intros _].
    apply descriptors_grow_add.
Qed.

Lemma keeps_getEventViewRef {X : Type} (f : State → X) : keeps f _getEventViewRef.
Proof. unfold _getEventViewRef. repeat keeps_step. Qed.

Lemma keeps_store_attachNativeEvents :
  keeps (λ s, (viewDescriptors (env s), viewRef (env s))) _attachNativeEvents.
Proof.
  unfold _attachNativeEvents.
  apply keeps_bind; [apply keeps_getEventViewRef|intros node]. repeat keeps_step.
Qed.

Lemma keeps_store_detachNativeEvents :
  keeps (λ s, (viewDescriptors (env s), viewRef (env s))) _detachNativeEvents.
Proof.
  unfold _detachNativeEvents.
  apply keeps_bind; [apply keeps_getEventViewRef|intros node]. repeat keeps_step.
Qed.

Lemma keeps_store_reattachNativeEvents (prevProps : Props) :
  keeps (λ s, (viewDescriptors (env s), viewRef (env s)))
    (_reattachNativeEvents prevProps).
Proof.
  unfold _reattachNativeEvents.
  apply keeps_bind; [apply keeps_getEventViewRef|intros node]. repeat keeps_step.
Qed.

Lemma keeps_store_componentWillUnmount :
  keeps (λ s, (viewDescriptors (env s), viewRef (env s))) componentWillUnmount.
Proof.
  unfold componentWillUnmount.
  apply keeps_bind.
  { unfold _detachPropUpdater, removeAllListeners. repeat keeps_step. }
  intros _. apply keeps_bind; [keeps_step|intros this].
  apply keeps_bind; [repeat keeps_step|intros _].
  apply keeps_store_detachNativeEvents.
Qed.

Lemma keeps_fst {A X Y : Type} (f : State → X) (g : State → Y) (m : M A) :
  keeps (λ s, (f s, g s)) m → keeps f m.
Proof. intros Hm s. specialize (Hm s). by injection Hm. Qed.

(** X9: no method of the component ever takes a descriptor out of a
    descriptor set: [componentDidMount] and [componentDidUpdate] only add
    at the end of the sets, and [componentWillUnmount] leaves every
    descriptor set and every [viewRef] array exactly as it finds them. *)
Theorem descriptors_are_never_removed (prevProps : Props) :
  descriptors_grow componentDidMount
  ∧ descriptors_grow (componentDidUpdate prevProps)
  ∧ keeps (λ s, (viewDescriptors (env s), viewRef (env s))) componentWillUnmount.
Proof.
  split; [|split].
  - unfold componentDidMount.
    apply descriptors_grow_bind; [apply descriptors_grow_keeps; keeps_step|intros this].
    apply descriptors_grow_bind.
    { apply descriptors_grow_keeps. unfold _animatedPropsCallback. repeat keeps_step. }
    intros _. apply descriptors_grow_bind.
    { apply descriptors_grow_keeps. unfold setNativeView_if_any. repeat keeps_step. }
    intros _. apply descriptors_grow_bind.
    { apply descriptors_grow_keeps.
      apply (keeps_fst _ _ _ keeps_store_attachNativeEvents). }
    intros _. apply descriptors_grow_bind.
    { apply descriptors_grow_keeps. unfold _attachPropUpdater, addListener.
      repeat keeps_step. }
    intros _. apply descriptors_grow_attachAnimatedStyles.
  - unfold componentDidUpdate.
    apply descriptors_grow_bind; [apply descriptors_grow_keeps; keeps_step|intros this].
    apply descriptors_grow_bind.
    { apply descriptors_grow_keeps. unfold _attachProps. repeat keeps_step. }
    intros _. apply descriptors_grow_bind.
    { apply descriptors_grow_keeps.
      apply (keeps_fst _ _ _ (keeps_store_reattachNativeEvents prevProps)). }
    intros _. apply descriptors_grow_bind.
    { apply descriptors_grow_keeps. unfold setNativeView_if_any. repeat keeps_step. }
    intros _. apply descriptors_grow_attachAnimatedStyles.
  - apply keeps_store_componentWillUnmount.
Qed.





(** ** The projection on plain input *)

Lemma obj_set_fresh (key : string) (v : value) (fields : list (string * value)) :
  key ∉ keys fields → obj_set key v fields = fields ++ [(key, v)].
Proof.
  unfold keys. induction fields as [|[k w] rest IH]; cbn [obj_set]; [done|].
  intros [Hne Hrest]%not_elem_of_cons. cbn in Hne.
  rewrite bool_decide_eq_false_2 by done. cbn. by rewrite IH.
Qed.

Lemma assoc_get_app_fresh (key : string) (v : value)
    (pre rest : list (string * value)) :
  key ∉ keys pre → assoc_get key (pre ++ (key, v) :: rest) = Some v.
Proof.
  unfold keys. induction pre as [|[k w] pre IH]; cbn [app assoc_get].
  - intros _. by rewrite bool_decide_eq_true_2.
  - intros [Hne Hrest]%not_elem_of_cons. cbn in Hne.
    rewrite bool_decide_eq_false_2 by done. by apply IH.
Qed.

(** Writing every key of an object, in order, with its own value builds
    the object again. *)
Lemma foldl_obj_set_rebuild (fields : list (string * value))
    (f : list (string * value) → string → list (string * value)) :
  NoDup (keys fields) →
  (∀ acc key, key ∈ keys fields → f acc key = obj_set key (get_field key fields) acc) →
  foldl f [] (keys fields) = fields.
Proof.
  intros Hdup Hf.
  assert (Hgen : ∀ rest pre, fields = pre ++ rest → foldl f pre (keys rest) = fields).
  { induction rest as [|[k v] rest IH]; intros pre Heq; cbn.
    - by rewrite Heq, app_nil_r.
    - assert (Hfresh : k ∉ keys pre).
      { rewrite Heq in Hdup. unfold keys in *. rewrite fmap_app in Hdup.
        apply NoDup_app in Hdup as (_ & Hdisj & _). intros Hin.
        apply (Hdisj k Hin). cbn. apply list_elem_of_here. }
      rewrite Hf.
      2:{ rewrite Heq. unfold keys. rewrite fmap_app. apply elem_of_app. right.
          cbn. apply list_elem_of_here. }
      unfold get_field. rewrite Heq at 1. rewrite assoc_get_app_fresh by done.
      cbn [default]. rewrite obj_set_fresh by done.
      apply IH. by rewrite <- app_assoc. }
  by apply (Hgen fields []).
Qed.

Lemma elem_of_keys_get_field (fields : list (string * value)) (key : string) :
  key ∈ keys fields → ∃ v, (key, v) ∈ fields ∧ get_field key fields = v.
Proof.
  unfold keys, get_field. induction fields as [|[k w] rest IH]; cbn [assoc_get].
  - intros Hin. by apply elem_of_nil in Hin.
  - cbn. intros Hin. case_bool_decide as Hk.
    + subst k. exists w. split; [apply list_elem_of_here|done].
    + apply elem_of_cons in Hin as [->|Hin]; [done|].
      destruct (IH Hin) as (v & Hv & Hget). exists v.
      split; [by apply list_elem_of_further|done].
Qed.




(** X13: props that hold neither [style] nor [animatedProps], no animated
    node and no handler reference (and no repeated key) are projected to
    themselves, and the projection touches nothing. *)
Theorem filterNonAnimatedProps_plain_identity (inputProps : Props) (s : State) :
  NoDup (keys inputProps) →
  "style" ∉ keys inputProps →
  "animatedProps" ∉ keys inputProps →
  (∀ key v, (key, v) ∈ inputProps →
            is_AnimatedNode v = false ∧ is_handler_ref v = false) →
  _filterNonAnimatedProps inputProps s = (Ok inputProps, s).
Proof.
  intros Hdup Hstyle Hanim Hplain.
  change (_filterNonAnimatedProps inputProps s)
    with (for_in_acc (keys inputProps) [] (project_prop inputProps (self s)) s).
  rewrite (for_in_acc_pure
             (λ acc key, obj_set key (get_field key inputProps) acc)).
  - f_equal. f_equal. by apply foldl_obj_set_rebuild.
  - intros acc key Hin.
    destruct (elem_of_keys_get_field inputProps key Hin) as (v & Hv & Hget).
    destruct (Hplain key v Hv) as [Hnode Href].
    apply project_prop_pass_through.
    + by rewrite Hget.
    + by rewrite Hget.
    + intros ->. contradiction.
    + intros ->. contradiction.
Qed.

(** ** The projection of events, handlers and other nodes *)

Lemma project_loop_skip (inputProps : Props) (this : Instance) (key : string) :
  (∀ acc s, project_prop inputProps this acc key s = (Ok acc, s)) →
  ∀ ks acc s out s',
    (∀ key', key' ∈ ks → key ∉ spliced_by key' (get_field key' inputProps)) →
    for_in_acc ks acc (project_prop inputProps this) s = (Ok out, s') →
    assoc_get key out = assoc_get key acc.
Proof.
  intros Hown ks. induction ks as [|k ks IH]; intros acc s out s' Hsplice; cbn [for_in_acc].
  - by intros [= <- <-].
  - intros Hrun. apply bind_inv_Ok in Hrun as (acc1 & s1 & Hk & Hrest).
    apply IH in Hrest.
    2:{ intros key' Hin. apply Hsplice. by apply list_elem_of_further. }
    rewrite Hrest. destruct (decide (key = k)) as [<-|Hne].
    + rewrite Hown in Hk. by injection Hk as <- <-.
    + eapply project_prop_other; [| |exact Hk]; [done|].
      apply Hsplice, list_elem_of_here.
Qed.

Lemma handler_ref_not_node (v : value) (l : loc) (names : list string)
    (ls : option (list (string * value))) (t : option Tag) :
  get_prop "current" v = VHandler l names ls t →
  is_class AnimatedEvent v = false.
Proof. by destruct v. Qed.

(** X14: in the projected props an event-bound prop and a handler
    reference without event names are replaced by [dummyListener], and an
    animated node that is neither a value nor an event is left out (as long
    as no other prop splices something under the same key). *)
Theorem filterNonAnimatedProps_placeholders (s s' : State) (inputProps out : Props)
    (key : string) (v : value) :
  assoc_get key inputProps = Some v →
  key ≠ "style" → key ≠ "animatedProps" →
  key ∉ spliced_keys inputProps →
  _filterNonAnimatedProps inputProps s = (Ok out, s') →
  (is_class AnimatedEvent v = true → get_field key out = dummyListener)
  ∧ (∀ l ls t, get_prop "current" v = VHandler l [] ls t →
               get_field key out = dummyListener)
  ∧ (is_class OtherAnimatedNode v = true → assoc_get key out = None).
Proof.
  intros Hget Hstyle Hanim Hsplice Hrun.
  change (_filterNonAnimatedProps inputProps s)
    with (for_in_acc (keys inputProps) [] (project_prop inputProps (self s)) s) in Hrun.
  pose proof (get_field_of_assoc_get _ _ _ Hget) as Hv.
  pose proof (assoc_get_keys _ _ _ Hget) as Hin.
  assert (Hsp : ∀ key', key' ∈ keys inputProps →
                        key ∉ spliced_by key' (get_field key' inputProps))
    by (intros key' Hin'; by apply not_spliced).
  split; [|split].
  - intros Hev. apply get_field_of_assoc_get.
    eapply (project_loop inputProps (self s) key dummyListener) in Hrun; [|..|exact Hsp].
    + by rewrite decide_True in Hrun.
    + intros acc s0. unfold project_prop. cbv zeta.
      rewrite !bool_decide_eq_false_2 by done. by rewrite Hv, Hev.
  - intros l ls t Hcur. apply get_field_of_assoc_get.
    eapply (project_loop inputProps (self s) key dummyListener) in Hrun; [|..|exact Hsp].
    + by rewrite decide_True in Hrun.
    + intros acc s0. unfold project_prop. cbv zeta.
      rewrite !bool_decide_eq_false_2 by done.
      rewrite Hv, (handler_ref_not_node _ _ _ _ _ Hcur), Hcur. reflexivity.
  - intros Hother.
    eapply (project_loop_skip inputProps (self s) key) in Hrun; [exact Hrun|..|exact Hsp].
    intros acc s0. unfold project_prop. cbv zeta.
    rewrite !bool_decide_eq_false_2 by done. rewrite Hv.
    destruct v as [| | | | | | | |cls id start| |]; try discriminate.
    by destruct cls.
Qed.





(** ** [render] *)

(** X16: off the web platform the props that [render] hands to the
    wrapped component always carry [collapsable: false], whatever the
    component's own props say, and agree with the projection on every other
    key; on the web platform they are the projection itself. *)
Theorem render_platform_props (s : State) :
  (Platform_OS = "web" → render s = _filterNonAnimatedProps (props (self s)) s)
  ∧ (Platform_OS ≠ "web" →
     ∀ out s', render s = (Ok out, s') →
       get_field "collapsable" out = VBool false
       ∧ ∃ projected,
           _filterNonAnimatedProps (props (self s)) s = (Ok projected, s')
           ∧ ∀ key, key ≠ "collapsable" → assoc_get key out = assoc_get key projected).
Proof.
  unfold render. unfold mbind at 1 3, M_bind at 1 3, this_. cbv beta iota.
  split.
  - intros Hweb. unfold mbind, M_bind. rewrite bool_decide_eq_true_2 by done.
    cbn [keys fmap list_fmap foldl].
    by destruct (_filterNonAnimatedProps (props (self s)) s) as [[projected|e] s1].
  - intros Hnative out s' Hrun. apply bind_inv_Ok in Hrun as (projected & s1 & Hproj & Hret).
    rewrite bool_decide_eq_false_2 in Hret by done.
    injection Hret as <- <-. cbn. split.
    + apply get_field_of_assoc_get, assoc_get_obj_set_eq.
    + exists projected. split; [done|]. intros key Hne.
      by apply assoc_get_obj_set_ne.
Qed.

(** ** Mounting and unmounting *)

Lemma keeps_registry_attachNativeEvents :
  keeps (λ s, (NODE_MAPPING (env s), emitter (env s), iid (self s)))
    _attachNativeEvents.
Proof.
  unfold _attachNativeEvents.
  apply keeps_bind; [apply keeps_getEventViewRef|intros node]. repeat keeps_step.
Qed.

Lemma keeps_registry_attachAnimatedStyles :
  keeps (λ s, (NODE_MAPPING (env s), emitter (env s), iid (self s)))
    _attachAnimatedStyles.
Proof.
  unfold _attachAnimatedStyles, add_descriptor_if_any, viewDescriptors_add.
  repeat keeps_step.
Qed.

(** X17: when [componentDidMount] returns normally the registry maps the
    instance's view tag to the instance, and, if the module's listener was
    subscribed exactly when the registry was non-empty before, it is
    subscribed now. *)
Theorem componentDidMount_registers (s s' : State) :
  (subscribed (env s) ↔ NODE_MAPPING (env s) ≠ ∅) →
  componentDidMount s = (Ok (), s') →
  NODE_MAPPING (env s') !! findNodeHandle (TInstance (iid (self s)))
  = Some (iid (self s))
  ∧ subscribed (env s').
Proof.
  intros Hinv. unfold componentDidMount.
  unfold mbind at 1, M_bind at 1, this_ at 1. cbv beta iota.
  set (R := λ s : State, (NODE_MAPPING (env s), emitter (env s), iid (self s))).
  intros Hrun.
  apply bind_inv_Ok in Hrun as ([] & s1 & Hreplay & Hrun).
  apply bind_inv_Ok in Hrun as ([] & s2 & Hview & Hrun).
  apply bind_inv_Ok in Hrun as ([] & s3 & Hevents & Hrun).
  apply bind_inv_Ok in Hrun as ([] & s4 & Hreg & Hstyles).
  assert (H1 : R s1 = R s).
  { assert (Hk : keeps R (if _invokeAnimatedPropsCallbackOnMount (self s)
                          then set_self (with_invokeOnMount false) ;; _animatedPropsCallback
                          else mret ()))
      by (unfold _animatedPropsCallback; repeat keeps_step).
    specialize (Hk s). by rewrite Hreplay in Hk. }
  assert (H2 : R s2 = R s1).
  { assert (Hk : keeps R setNativeView_if_any)
      by (unfold setNativeView_if_any; repeat keeps_step).
    specialize (Hk s1). by rewrite Hview in Hk. }
  assert (H3 : R s3 = R s2).
  { pose proof (keeps_registry_attachNativeEvents s2) as Hk.
    by rewrite Hevents in Hk. }
  assert (H5 : R s' = R s4).
  { pose proof (keeps_registry_attachAnimatedStyles s4) as Hk.
    by rewrite Hstyles in Hk. }
  rewrite attachPropUpdater_Ok in Hreg. injection Hreg as <-.
  assert (H03 : R s3 = R s) by congruence.
  unfold R in H03, H5. cbn [self env] in H5.
  injection H03 as Hmap3 Hem3 Hid3. injection H5 as Hmap5 Hem5 _.
  change (env (_attachPropUpdater {| self := self s3; env := env s3 |}).2)
    with (registry_step (Register (self s3)) (env s3)) in *.
  split.
  - rewrite Hmap5, NODE_MAPPING_register, Hid3. apply lookup_insert_eq.
  - unfold subscribed. rewrite Hem5. apply registry_step_invariant.
    + unfold subscribed. by rewrite Hem3, Hmap3.
    + rewrite NODE_MAPPING_register. apply insert_non_empty.
Qed.

Lemma getEventViewRef_unmounted_detach (s : State) :
  _component (self s) = None →
  _detachNativeEvents s = (Throw (TypeError "this._component.getScrollableNode"), s).
Proof.
  intros Hc. unfold _detachNativeEvents.
  by rewrite (bind_Throw _ _ _ _ _ (getEventViewRef_unmounted s Hc)).
Qed.

(** X18: [componentWillUnmount] always takes the instance's view tag out
    of the registry and detaches the props node when there is one; it
    returns normally when the instance has a component, and with no
    component it throws a TypeError, after those two steps. *)
Theorem componentWillUnmount_teardown (s : State) :
  let after := componentWillUnmount s in
  NODE_MAPPING (env after.2)
  = delete (findNodeHandle (TInstance (iid (self s)))) (NODE_MAPPING (env s))
  ∧ (∀ n, _propsAnimated (self s) = Some n → EvDetachPropsNode n ∈ trace (env after.2))
  ∧ (is_Some (_component (self s)) → after.1 = Ok ())
  ∧ (_component (self s) = None →
     after.1 = Throw (TypeError "this._component.getScrollableNode")).
Proof.
  cbv zeta.
  set (s1 := mkState (self s) (registry_step (Unregister (self s)) (env s))).
  set (s2 := match _propsAnimated (self s) with
             | Some n => add_trace [EvDetachPropsNode n] s1
             | None => s1
             end).
  assert (Heq : componentWillUnmount s = _detachNativeEvents s2).
  { unfold componentWillUnmount.
    rewrite (bind_Ok _ _ _ _ _ (detachPropUpdater_Ok s)). fold s1.
    unfold mbind at 1, M_bind at 1, this_ at 1. cbv beta iota.
    subst s2. change (self s1) with (self s).
    by destruct (_propsAnimated (self s)). }
  rewrite Heq.
  assert (Hself2 : self s2 = self s) by (subst s2; by destruct (_propsAnimated (self s))).
  assert (Hmap2 : NODE_MAPPING (env s2)
                  = delete (findNodeHandle (TInstance (iid (self s)))) (NODE_MAPPING (env s))).
  { subst s2. destruct (_propsAnimated (self s)); cbn [add_trace env NODE_MAPPING];
      subst s1; cbn [env]; apply NODE_MAPPING_unregister. }
  assert (Hnode2 : ∀ n, _propsAnimated (self s) = Some n →
                        EvDetachPropsNode n ∈ trace (env s2)).
  { intros n Hn. subst s2. rewrite Hn. cbn [add_trace env trace].
    apply elem_of_app. right. by apply list_elem_of_singleton. }
  destruct (_component (self s)) as [c|] eqn:Hc.
  - destruct (detachNativeEvents_mirrors_attach s2 c) as (evs & _ & Hdetach & _).
    { by rewrite Hself2. }
    rewrite Hdetach. cbn [fst snd add_trace env NODE_MAPPING trace].
    split; [done|]. split; [|split; [done|discriminate]].
    intros n Hn. apply elem_of_app. left. by apply Hnode2.
  - rewrite getEventViewRef_unmounted_detach by (by rewrite Hself2).
    cbn [fst snd]. split; [done|]. split; [done|].
    split; [by intros [? ?]|done].
Qed.

(** ** What an update and a publication leave alone *)

(** X19: [componentDidUpdate] never touches the registry or the listeners
    of the event emitter, whether it returns normally or throws. *)
Theorem componentDidUpdate_keeps_registry (prevProps : Props) :
  keeps (λ s, (NODE_MAPPING (env s), emitter (env s), iid (self s)))
    (componentDidUpdate prevProps).
Proof.
  unfold componentDidUpdate.
  apply keeps_bind; [keeps_step|intros this].
  apply keeps_bind; [unfold _attachProps; repeat keeps_step|intros _].
  apply keeps_bind.
  { unfold _reattachNativeEvents.
    apply keeps_bind; [apply keeps_getEventViewRef|intros node]. repeat keeps_step. }
  intros _. apply keeps_bind; [unfold setNativeView_if_any; repeat keeps_step|intros _].
  apply keeps_registry_attachAnimatedStyles.
Qed.

(** X20: the only call [_attachAnimatedStyles] ever makes is
    [adaptViewConfig], once, off the web platform, on the view config of
    the host instance it found, and exactly when [_hasReanimated2Props]
    answers yes for the flattened styles; on the web platform, and without
    a host instance, it makes no call. *)
Theorem attachAnimatedStyles_calls (s : State) :
  trace (env (_attachAnimatedStyles s).2)
  = trace (env s) ++
      (if bool_decide (Platform_OS = "web") then []
       else
         match findHostInstance_DEPRECATED (iid (self s)) with
         | Some hostInstance =>
             if _hasReanimated2Props (props (self s))
                  (_flattenArray (as_array (get_field "style" (props (self s)))))
             then [EvAdaptViewConfig (viewConfig hostInstance)]
             else []
         | None => []
         end).
Proof.
  unfold _attachAnimatedStyles.
  unfold mbind at 1, M_bind at 1, this_ at 1. cbv beta iota zeta.
  match goal with
  | |- context [?build ≫= ?publish] =>
      assert (Hpub : ∀ d, keeps (λ s, trace (env s)) (publish d))
  end.
  { intros d. unfold add_descriptor_if_any, viewDescriptors_add. repeat keeps_step. }
  unfold mbind at 1, M_bind at 1.
  case_bool_decide as Hweb.
  - unfold mret at 1, M_ret at 1. cbv beta iota.
    rewrite Hpub. by rewrite app_nil_r.
  - destruct (findHostInstance_DEPRECATED (iid (self s))) as [h|].
    + destruct (_hasReanimated2Props _ _).
      * unfold mbind at 1, M_bind at 1. rewrite emit_add_trace.
        unfold mret at 1, M_ret at 1. cbv beta iota. by rewrite Hpub.
      * unfold mbind at 1, M_bind at 1. unfold mret at 1 2, M_ret at 1 2.
        cbv beta iota. rewrite Hpub. by rewrite app_nil_r.
    + unfold throw. cbn [snd]. by rewrite app_nil_r.
Qed.

(** X21: whatever the previous props and the state, [_reattachNativeEvents]
    makes no [detachEvent] call, and it leaves the fields of the instance
    as they are. *)
Theorem reattachNativeEvents_makes_no_detach_call (s : State) (prevProps : Props) :
  self (_reattachNativeEvents prevProps s).2 = self s
  ∧ ∃ evs, trace (env (_reattachNativeEvents prevProps s).2) = trace (env s) ++ evs
           ∧ Forall (λ e, is_detachEvent e = false) evs.
Proof.
  destruct (reattachNativeEvents_never_detaches prevProps s) as (Hself & evs & Htr & Hevs).
  split; [done|]. exists evs. split; [done|].
  eapply Forall_impl; [exact Hevs|]. intros e He. by apply negb_true_iff in He.
Qed.

End Further.

(** * The further properties on concrete inputs *)

Lemma flattenArray_flat_and_idempotent_witness :
  Forall (λ x, isArray x = false) [VNull; animated_style]
  ∧ flattenArray (VNum 3) = VNum 3.
Proof.
  split.
  - exact (proj1 (flattenArray_flat_and_idempotent nested_styles)
             [VNull; animated_style] eq_refl).
  - exact (proj2 (proj2 (flattenArray_flat_and_idempotent (VNum 3))) eq_refl).
Defined.

Lemma detachNativeEvents_mirrors_attach_witness :
  ∃ evs,
    @_attachNativeEvents native_host (mounted_instance [("onScroll", handlerA)])
    = (Ok (), add_trace evs (mounted_instance [("onScroll", handlerA)]))
    ∧ _detachNativeEvents (mounted_instance [("onScroll", handlerA)])
      = (Ok (), add_trace (undo_call <$> evs) (mounted_instance [("onScroll", handlerA)]))
    ∧ Forall (λ e, is_mount_call e = true) evs.
Proof.
  exact (@detachNativeEvents_mirrors_attach native_host
           (mounted_instance [("onScroll", handlerA)]) (native_view 20) eq_refl).
Defined.

Lemma registered_instance_receives_notification_witness :
  listener (Some 10%N) (VObj [("opacity", VNum 0)])
    (mkWorld (instances native_world)
       (@registry_step native_host (Register native_instance) (shared native_world)))
  = (Ok (),
     mkWorld (instances native_world)
       (env (add_trace [EvSetNativeProps 20 (VObj [("opacity", VNum 0)])]
               (mkState native_instance
                  (@registry_step native_host (Register native_instance)
                     (shared native_world)))))).
Proof.
  exact (@registered_instance_receives_notification native_host native_world
           native_instance (native_view 20) (VObj [("opacity", VNum 0)])
           eq_refl eq_refl eq_refl).
Defined.

Lemma register_unregister_round_trip_witness :
  let v' := @registry_run native_host
              [Register (new_instance 1 []); Unregister (new_instance 1 [])] empty_env in
  NODE_MAPPING v' = ∅
  ∧ listeners_of channel (emitter v') = []
  ∧ trace v' = [subscribe_call; unsubscribe_call].
Proof.
  pose proof (@register_unregister_round_trip native_host (new_instance 1 []) empty_env
                eq_refl) as [Hmap Hrest].
  cbv zeta. split; [exact Hmap|]. exact (Hrest eq_refl).
Defined.

Lemma reattachNativeEvents_same_keys_no_call_witness :
  _reattachNativeEvents [("onScroll", handlerA)]
    (mounted_instance [("onScroll", handlerB)])
  = (Ok (), mounted_instance [("onScroll", handlerB)]).
Proof.
  refine (reattachNativeEvents_same_keys_no_call
            (mounted_instance [("onScroll", handlerB)]) [("onScroll", handlerA)]
            (native_view 20) eq_refl _ _).
  - intros key Hin. exact Hin.
  - intros key l names ls t _. apply not_elem_of_empty.
Defined.

Lemma reattachNativeEvents_lowers_flags_witness :
  4%N ∈ reattachNeeded (env flagged_instance)
  ∧ (_reattachNativeEvents [] flagged_instance).1 = Ok ()
  ∧ 4%N ∉ reattachNeeded (env (_reattachNativeEvents [] flagged_instance).2).
Proof.
  pose proof (reattachNativeEvents_lowers_flags flagged_instance [] (native_view 20)
                eq_refl) as (Hok & _ & Hlow).
  split; [vm_compute; reflexivity|]. split; [exact Hok|].
  refine (Hlow "onPress" 4%N ["onPress"] None None _ eq_refl).
  apply list_elem_of_here.
Defined.




Lemma filterNonAnimatedProps_plain_identity_witness :
  @_filterNonAnimatedProps native_host [("title", VStr "a"); ("count", VNum 2)]
    (mounted_instance [("title", VStr "a"); ("count", VNum 2)])
  = (Ok [("title", VStr "a"); ("count", VNum 2)],
     mounted_instance [("title", VStr "a"); ("count", VNum 2)]).
Proof.
  apply filterNonAnimatedProps_plain_identity.
  - apply (bool_decide_unpack _). vm_compute. exact I.
  - apply (bool_decide_unpack _). vm_compute. exact I.
  - apply (bool_decide_unpack _). vm_compute. exact I.
  - intros key v Hin.
    repeat (apply elem_of_cons in Hin as [[= -> ->]|Hin]; [by split|]).
    by apply elem_of_nil in Hin.
Defined.

Lemma filterNonAnimatedProps_placeholders_witness :
  get_field "onScroll" (projected [("onScroll", handlerA)]) = dummyListener.
Proof.
  refine (proj1 (@filterNonAnimatedProps_placeholders native_host
                   (mounted_instance [("onScroll", handlerA)])
                   (mounted_instance [("onScroll", handlerA)])
                   [("onScroll", handlerA)] (projected [("onScroll", handlerA)])
                   "onScroll" handlerA eq_refl _ _ _ _) eq_refl).
  - discriminate.
  - discriminate.
  - intros Hin. vm_compute in Hin. inversion Hin.
  - vm_compute. reflexivity.
Defined.


Lemma render_platform_props_witness :
  ∃ out,
    @render native_host (mounted_instance [("collapsable", VBool true)])
    = (Ok out, mounted_instance [("collapsable", VBool true)])
    ∧ get_field "collapsable" out = VBool false.
Proof.
  exists [("collapsable", VBool false)].
  assert (Hrun : @render native_host (mounted_instance [("collapsable", VBool true)])
                 = (Ok [("collapsable", VBool false)],
                    mounted_instance [("collapsable", VBool true)])).
  { vm_compute. reflexivity. }
  split; [exact Hrun|].
  refine (proj1 (proj2 (@render_platform_props native_host
                          (mounted_instance [("collapsable", VBool true)])) _ _ _ Hrun)).
  discriminate.
Defined.

Lemma componentDidMount_registers_witness :
  let s' := (@componentDidMount native_host
               (mounted_instance [("style", animated_style)])).2 in
  NODE_MAPPING (env s') !! Some 10%N = Some 10%N ∧ subscribed (env s').
Proof.
  refine (@componentDidMount_registers native_host
            (mounted_instance [("style", animated_style)]) _ _ _).
  - split.
    + intros Hin. unfold subscribed in Hin. vm_compute in Hin. inversion Hin.
    + intros Hne. by destruct Hne.
  - vm_compute. reflexivity.
Defined.

Lemma componentWillUnmount_teardown_witness :
  EvDetachPropsNode 1%N
  ∈ trace (env (@componentWillUnmount native_host (mounted_instance [])).2)
  ∧ (@componentWillUnmount native_host (mounted_instance [])).1 = Ok ()
  ∧ (@componentWillUnmount native_host (unmounted_instance [])).1
    = Throw (TypeError "this._component.getScrollableNode").
Proof.
  pose proof (@componentWillUnmount_teardown native_host (mounted_instance []))
    as (_ & Hnode & Hok & _).
  pose proof (@componentWillUnmount_teardown native_host (unmounted_instance []))
    as (_ & _ & _ & Hthrow).
  split; [exact (Hnode 1%N eq_refl)|]. split; [|exact (Hthrow eq_refl)].
  apply Hok. by exists (native_view 20).
Defined.
